(** * Pollexy message manager: a shallow embedding of
      [messages/message_manager.py] and the properties of its delivery
      queue operations.

    The class [MessageManager] talks to three collaborators that live
    outside the module: the two SQS queues ([self.queue] and
    [self.bot_queue]), the [Scheduler] that owns the per-(uuid, person)
    occurrence records, and the [QueuedMessage] view of an SQS message.
    The embedding keeps the instance fields in a record [MessageManager],
    the collaborators' state in a record [World], and writes every method
    as a computation in a state-and-exception monad over both. *)

From Stdlib Require Import ZArith String List.
From stdpp Require Import base option list strings gmap fin_maps.

Open Scope string_scope.
Open Scope list_scope.
Open Scope Z_scope.

(** ** Python values *)

(** Truth value of a [str]: [if s:] holds for the non-empty strings. *)
Definition truthy (s : string) : bool :=
  match s with
  | EmptyString => false
  | String _ _ => true
  end.

(** Truth value of a keyword that defaults to [None]: [None] and [''] are
    both false. *)
Definition truthy_opt (o : option string) : bool :=
  match o with
  | None => false
  | Some s => truthy s
  end.

Definition eqb_str (s t : string) : bool := bool_decide (s = t).

(** ** The queue transport *)

(** The two queues of a location, [pollexy-inbox-<location>] and its
    [-bot] variant; a received message carries the url of its queue. *)
Inductive QueueUrl : Type :=
  | QueueName
  | BotQueueName.

Global Instance QueueUrl_eq_dec : EqDecision QueueUrl.
Proof. solve_decision. Defined.

(** The [MessageAttributes] of a queue entry.  Every attribute travels as
    a string; the record keeps the value each string encodes (a time in
    seconds for [ExpirationDateTimeInUtc], a boolean for
    [NoMoreOccurrences]).  The three optional attributes are present only
    when [publish_message] was given a true value for them. *)
Record MessageAttributes : Type := mkAttributes {
  PersonName : string;
  Locations : string;
  ExpirationDateTimeInUtc : Z;
  UUID : string;
  NoMoreOccurrences : bool;
  Voice : string;
  RequiredBots : option string;
  BotNames : option string;
  IceBreaker : option string
}.

(** One entry of a queue as the transport stores it. *)
Record Entry : Type := mkEntry {
  entry_handle : nat;
  entry_body : string;
  entry_attributes : MessageAttributes
}.

(** A message object as [receive_messages] hands it out: the entry
    together with the url of the queue it was received from. *)
Record SqsMessage : Type := mkSqsMessage {
  queue_url : QueueUrl;
  receipt_handle : nat;
  sqs_body : string;
  message_attributes : MessageAttributes
}.

Definition message_of (url : QueueUrl) (e : Entry) : SqsMessage :=
  {| queue_url := url;
     receipt_handle := entry_handle e;
     sqs_body := entry_body e;
     message_attributes := entry_attributes e |}.

(** ** QueuedMessage *)

(** Modelled from the spec: class [QueuedMessage] of module [message],
    which is imported by the manager but is not part of the sources at
    hand.  It is the Message Record of the data model: the fields of one
    queue entry read from its body and its attributes. *)
Module QueuedMessage.
Record t : Type := mk {
  person_name : string;
  uuid_key : string;
  body : string;
  voice_id : string;
  expiration_datetime_in_utc : Z;
  no_more_occurrences : bool
}.
End QueuedMessage.
Abbreviation QueuedMessage := QueuedMessage.t.
Import QueuedMessage (body, voice_id, uuid_key, no_more_occurrences,
  expiration_datetime_in_utc).

Definition QueuedMessage_of (m : SqsMessage) : QueuedMessage :=
  let a := message_attributes m in
  {| QueuedMessage.person_name := PersonName a;
     uuid_key := UUID a;
     body := sqs_body m;
     voice_id := Voice a;
     expiration_datetime_in_utc := ExpirationDateTimeInUtc a;
     no_more_occurrences := NoMoreOccurrences a |}.

(** Modelled from the spec: the derived field [is_expired] of
    [QueuedMessage], "current time > expiresAtUtc". *)
Definition is_expired (now : Z) (qm : QueuedMessage) : bool :=
  expiration_datetime_in_utc qm <? now.

(** ** The occurrence store of the Scheduler *)

(** Modelled from the spec: the Occurrence State that the [Scheduler]
    (module [scheduler.scheduler], not part of the sources at hand) keeps
    per (uuid, person) pair: the flags [inQueue] and [expired] and the
    time [lastOccurrenceAt]. *)
Record Occurrence : Type := mkOccurrence {
  in_queue : bool;
  last_occurrence : option Z;
  expired : bool
}.

Definition no_occurrence : Occurrence :=
  {| in_queue := false; last_occurrence := None; expired := false |}.

Abbreviation OccurrenceStore := (gmap (string * string) Occurrence).

Definition occurrence (st : OccurrenceStore) (uuid person : string)
  : Occurrence :=
  default no_occurrence (st !! (uuid, person)).

Module Scheduler.

(** Modelled from the spec: [setInQueue(id, recipientName, bool)]. *)
Definition update_queue_status (uuid person : string) (b : bool)
    (st : OccurrenceStore) : OccurrenceStore :=
  let o := occurrence st uuid person in
  <[(uuid, person) :=
      {| in_queue := b;
         last_occurrence := last_occurrence o;
         expired := expired o |}]> st.

(** Modelled from the spec: [updateLastOccurrence(id, recipientName)],
    "lastOccurrenceAt = now". *)
Definition update_last_occurrence (uuid person : string) (now : Z)
    (st : OccurrenceStore) : OccurrenceStore :=
  let o := occurrence st uuid person in
  <[(uuid, person) :=
      {| in_queue := in_queue o;
         last_occurrence := Some now;
         expired := expired o |}]> st.

(** Modelled from the spec: [markExpired(id, recipientName)]. *)
Definition set_expired (uuid person : string)
    (st : OccurrenceStore) : OccurrenceStore :=
  let o := occurrence st uuid person in
  <[(uuid, person) :=
      {| in_queue := in_queue o;
         last_occurrence := last_occurrence o;
         expired := true |}]> st.

End Scheduler.

(** ** The world outside the manager *)

(** The contents of the two queues in arrival order, the handle the
    transport gives to the next entry, the Scheduler's store and the
    clock. *)
Record World : Type := mkWorld {
  queue : list Entry;
  bot_queue : list Entry;
  next_handle : nat;
  occurrences : OccurrenceStore;
  utcnow : Z
}.

Definition entries (url : QueueUrl) (w : World) : list Entry :=
  match url with
  | QueueName => queue w
  | BotQueueName => bot_queue w
  end.

Definition with_entries (url : QueueUrl) (l : list Entry) (w : World)
  : World :=
  match url with
  | QueueName =>
      {| queue := l; bot_queue := bot_queue w; next_handle := next_handle w;
         occurrences := occurrences w; utcnow := utcnow w |}
  | BotQueueName =>
      {| queue := queue w; bot_queue := l; next_handle := next_handle w;
         occurrences := occurrences w; utcnow := utcnow w |}
  end.

Definition with_occurrences (f : OccurrenceStore → OccurrenceStore)
    (w : World) : World :=
  {| queue := queue w; bot_queue := bot_queue w;
     next_handle := next_handle w;
     occurrences := f (occurrences w); utcnow := utcnow w |}.

(** The clock moves between two calls. *)
Definition at_time (t : Z) (w : World) : World :=
  {| queue := queue w; bot_queue := bot_queue w;
     next_handle := next_handle w;
     occurrences := occurrences w; utcnow := t |}.

(** [queue.receive_messages(MaxNumberOfMessages=n)]: the transport hands
    out at most [n] entries, here the oldest ones.  A received entry stays
    in its queue until it is deleted; the visibility window, which is a
    matter of real time, is left out. *)
Definition receive_messages (url : QueueUrl) (max_number_of_messages : nat)
    (w : World) : list SqsMessage :=
  message_of url <$> take max_number_of_messages (entries url w).

(** [queue.send_message(MessageBody, MessageAttributes)]: the entry goes
    to the end of that queue. *)
Definition send_message (url : QueueUrl) (message_body : string)
    (msg_attr : MessageAttributes) (w : World) : World :=
  let e := {| entry_handle := next_handle w;
              entry_body := message_body;
              entry_attributes := msg_attr |} in
  let w' := with_entries url (entries url w ++ [e]) w in
  {| queue := queue w'; bot_queue := bot_queue w';
     next_handle := S (next_handle w);
     occurrences := occurrences w'; utcnow := utcnow w' |}.

(** [client.delete_message(QueueUrl, ReceiptHandle)]: the entry with that
    handle leaves the queue; deleting an entry that is gone changes
    nothing. *)
Definition delete_message (url : QueueUrl) (handle : nat) (w : World)
  : World :=
  with_entries url
    (filter (λ e, entry_handle e ≠ handle) (entries url w)) w.

(** ** The manager and its monad *)

(** The instance fields.  [__init__] sets [self.messages = {}] and leaves
    [self.sqs_msgs] unset: the attribute exists from the first
    [get_messages] on. *)
Record MessageManager : Type := mkManager {
  messages : gmap string (list QueuedMessage);
  sqs_msgs : option (list SqsMessage)
}.

Inductive exn : Type :=
  | ValueError (msg : string)
  | TypeError (unexpected : list string)
  | KeyError (key : string)
  | AttributeError (attr : string)
  | UnboundLocalError (name : string).

Inductive result (A : Type) : Type :=
  | Return (a : A)
  | Raise (e : exn).
Arguments Return {A} a.
Arguments Raise {A} e.

(** A method call runs on the instance and the world and leaves both
    changed, also when it raises. *)
Definition M (A : Type) : Type :=
  MessageManager → World → result A * MessageManager * World.

Global Instance M_ret : MRet M := λ A a self w, (Return a, self, w).

Global Instance M_bind : MBind M := λ A B f c self w,
  match c self w with
  | (Return a, self', w') => f a self' w'
  | (Raise e, self', w') => (Raise e, self', w')
  end.

Definition raise {A} (e : exn) : M A := λ self w, (Raise e, self, w).

Definition get_self : M MessageManager := λ self w, (Return self, self, w).
Definition put_self (self' : MessageManager) : M unit :=
  λ _ w, (Return tt, self', w).
Definition get_world : M World := λ self w, (Return w, self, w).
Definition modify_world (f : World → World) : M unit :=
  λ self w, (Return tt, self, f w).

(** [for x in l: f x] *)
Fixpoint for_each {A} (l : list A) (f : A → M unit) : M unit :=
  match l with
  | [] => mret tt
  | x :: l' => f x ;; for_each l' f
  end.

Definition value_of {A} (r : result A * MessageManager * World) : result A :=
  r.1.1.
Definition self_of {A} (r : result A * MessageManager * World)
  : MessageManager := r.1.2.
Definition world_of {A} (r : result A * MessageManager * World) : World :=
  r.2.

(** ** The methods of MessageManager *)

(** [__init__(LocationName=...)]: an empty location name is refused;
    otherwise the instance starts with [self.messages = {}].  The queues
    that [validate_queue] looks up or creates are the two of [World]. *)
Definition init (location_name : string) : result MessageManager :=
  if decide (String.length location_name = 0%nat)
  then Raise (ValueError "Missing location name")
  else Return {| messages := ∅; sqs_msgs := None |}.

(** The body of [for m in messages:] in [get_messages], with the list
    [msgs] built so far.  A message for another person is skipped
    ([continue]); the first message that is kept ends the method, because
    [return msgs] stands inside the loop; a loop that runs to its end
    falls off the method, which then returns [None]. *)
Fixpoint get_messages_loop (person_name : string)
    (received : list SqsMessage) (msgs : list QueuedMessage)
  : M (option (list QueuedMessage)) :=
  match received with
  | [] => mret None
  | m :: rest =>
      let qm := QueuedMessage_of m in
      if truthy person_name
         && negb (eqb_str (QueuedMessage.person_name qm) person_name)
      then get_messages_loop person_name rest msgs
      else
        self ← get_self;
        let group :=
          match messages self !! QueuedMessage.person_name qm with
          | None => []
          | Some l => l
          end in
        put_self
          {| messages :=
               <[QueuedMessage.person_name qm := group ++ [qm]]>
                 (messages self);
             sqs_msgs := (λ l, l ++ [m]) <$> sqs_msgs self |} ;;
        let msgs := msgs ++ [qm] in
        modify_world
          (with_occurrences
             (Scheduler.update_queue_status
                (uuid_key qm) (QueuedMessage.person_name qm) false)) ;;
        mret (Some msgs)
  end.

(** [get_messages(PersonName='', MessageType='Message',
    WaitTimeSeconds=0, MaxNumberOfMessages=10)].  The method resets
    [self.sqs_msgs] and leaves [self.messages] as it is. *)
Definition get_messages (person_name message_type : string)
    (wait_time_seconds max_number_of_messages : nat)
  : M (option (list QueuedMessage)) :=
  self ← get_self;
  put_self {| messages := messages self; sqs_msgs := Some [] |} ;;
  let url :=
    if eqb_str message_type "Message" then QueueName else BotQueueName in
  w ← get_world;
  let received := receive_messages url max_number_of_messages w in
  if bool_decide (0 < length received)%nat
  then get_messages_loop person_name received []
  else mret None.

(** [delete_sqs_msgs()] *)
Definition delete_sqs_msgs : M unit :=
  self ← get_self;
  match sqs_msgs self with
  | None => raise (AttributeError "sqs_msgs")
  | Some batch =>
      for_each batch (λ m,
        modify_world (delete_message (queue_url m) (receipt_handle m)))
  end.

(** [fail_messages(Reason='Unknown Reason', DontDelete=False)]; the
    reason is only logged. *)
Definition fail_messages (reason : string) (dont_delete : bool) : M unit :=
  if dont_delete then mret tt
  else
    self ← get_self;
    match sqs_msgs self with
    | None => raise (AttributeError "sqs_msgs")
    | Some batch =>
        for_each batch (λ m,
          let qm := QueuedMessage_of m in
          modify_world
            (with_occurrences
               (Scheduler.update_queue_status
                  (uuid_key qm) (QueuedMessage.person_name qm) false))) ;;
        delete_sqs_msgs
    end.

(** [succeed_messages(DontDelete=False)] *)
Definition succeed_messages (dont_delete : bool) : M unit :=
  if dont_delete then mret tt
  else
    self ← get_self;
    match sqs_msgs self with
    | None => raise (AttributeError "sqs_msgs")
    | Some batch =>
        for_each batch (λ m,
          let qm := QueuedMessage_of m in
          w ← get_world;
          modify_world
            (with_occurrences
               (Scheduler.update_last_occurrence
                  (uuid_key qm) (QueuedMessage.person_name qm)
                  (utcnow w))) ;;
          modify_world
            (with_occurrences
               (Scheduler.update_queue_status
                  (uuid_key qm) (QueuedMessage.person_name qm) false)) ;;
          if no_more_occurrences qm
          then modify_world
                 (with_occurrences
                    (Scheduler.set_expired
                       (uuid_key qm) (QueuedMessage.person_name qm)))
          else mret tt) ;;
        delete_sqs_msgs
    end.

(** [reset()] *)
Definition reset : M unit :=
  get_messages "" "Bot" 0 10 ;;
  fail_messages "Unknown Reason" false ;;
  delete_sqs_msgs ;;
  get_messages "" "Message" 0 10 ;;
  fail_messages "Unknown Reason" false ;;
  delete_sqs_msgs.

(** The keywords of one [publish_message] call: [None] for a keyword that
    is not passed, and the names of the keywords the method does not
    know. *)
Module Kw.
Record publish : Type := mk {
  ExpirationDateTimeInUtc : option Z;
  Body : option string;
  UUID : option string;
  NoMoreOccurrences : option bool;
  PersonName : option string;
  BotNames : option string;
  RequiredBots : option string;
  IceBreaker : option string;
  VoiceId : option string;
  unexpected : list string
}.
End Kw.

(** ['2299-12-31 00:00:00'] in seconds since 1970. *)
Definition far_future : Z := 10413705600.

Section Collaborators.

(** [SpeechHelper(PersonName=p).replace_tokens(speech)], from module
    [helpers.speech]. *)
Variable replace_tokens : string → string → string.

(** [PersonManager().get_person(p).time_windows.to_json()], from module
    [person.person]. *)
Variable time_windows_json : string → string.

(** The three statements of the loop of [write_speech]. *)
Definition speak_one (now : Z) (speech : string) (m : QueuedMessage)
  : string :=
  if negb (is_expired now m) then speech +:+ "<p>" +:+ body m +:+ "</p>"
  else speech.

(** [write_speech(DontDelete=False, PersonName='')].  After the loop the
    name [m] is still bound to the last message of the group, and its
    voice is returned. *)
Definition write_speech (dont_delete : bool) (person_name : string)
  : M (option string * option string) :=
  get_messages person_name "Message" 0 10 ;;
  self ← get_self;
  if decide (size (messages self) = 0%nat) then mret (None, None)
  else
    match messages self !! person_name with
    | None => raise (KeyError person_name)
    | Some group =>
        w ← get_world;
        let speech := fold_left (speak_one (utcnow w)) group "<speak>" in
        if eqb_str speech "<speak>" then mret (None, None)
        else
          let speech := speech +:+ "</speak>" in
          match last group with
          | None => raise (UnboundLocalError "m")
          | Some m =>
              mret (Some (voice_id m),
                    Some (replace_tokens person_name speech))
          end
    end.

(** [publish_message] on its keywords, with [uuid4] the string that
    [str(uuid.uuid4())] gives in this call. *)
Definition publish_message (uuid4 : string) (kwargs : Kw.publish)
  : M unit :=
  let expiration_date :=
    default far_future (Kw.ExpirationDateTimeInUtc kwargs) in
  let body := default "" (Kw.Body kwargs) in
  let uuid_key := default uuid4 (Kw.UUID kwargs) in
  let no_more_occ := default false (Kw.NoMoreOccurrences kwargs) in
  let person_name := default "" (Kw.PersonName kwargs) in
  let bot_names := Kw.BotNames kwargs in
  let required_bots := Kw.RequiredBots kwargs in
  let ice_breaker := Kw.IceBreaker kwargs in
  let voice := default "Joanna" (Kw.VoiceId kwargs) in
  if negb (truthy person_name) then raise (ValueError "No person provided")
  else if negb (truthy uuid_key) then raise (ValueError "No uuid provided")
  else if negb (truthy body)
  then raise (ValueError "No message body provided")
  else
    match Kw.unexpected kwargs with
    | _ :: _ => raise (TypeError (Kw.unexpected kwargs))
    | [] =>
        let windows := time_windows_json person_name in
        let msg_attr :=
          {| PersonName := person_name;
             Locations := windows;
             ExpirationDateTimeInUtc := expiration_date;
             UUID := uuid_key;
             NoMoreOccurrences := no_more_occ;
             Voice := voice;
             RequiredBots :=
               if truthy_opt required_bots then required_bots else None;
             BotNames := if truthy_opt bot_names then bot_names else None;
             IceBreaker :=
               if truthy_opt ice_breaker then ice_breaker else None |} in
        if truthy_opt bot_names
        then modify_world (send_message BotQueueName body msg_attr)
        else modify_world (send_message QueueName body msg_attr)
    end.

End Collaborators.

(** ** Sample data *)

Definition attributes_for (person uuid voice : string) (expires : Z)
    (no_more : bool) : MessageAttributes :=
  {| PersonName := person; Locations := "{}";
     ExpirationDateTimeInUtc := expires; UUID := uuid;
     NoMoreOccurrences := no_more; Voice := voice;
     RequiredBots := None; BotNames := None; IceBreaker := None |}.

Definition fresh_manager : MessageManager :=
  {| messages := ∅; sqs_msgs := None |}.

Definition world_with (q bq : list Entry) (st : OccurrenceStore)
    (now : Z) : World :=
  {| queue := q; bot_queue := bq;
     next_handle := S (length q + length bq);
     occurrences := st; utcnow := now |}.

(** The store after the scheduler has queued an occurrence of the pair. *)
Definition queued (uuid person : string) : OccurrenceStore :=
  Scheduler.update_queue_status uuid person true ∅.

Definition hello_alice : Entry :=
  mkEntry 1 "Hello" (attributes_for "alice" "u1" "Joanna" far_future true).
Definition again_alice : Entry :=
  mkEntry 2 "Again" (attributes_for "alice" "u2" "Brian" 50 false).
Definition hello_bob : Entry :=
  mkEntry 3 "Hi Bob" (attributes_for "bob" "u3" "Joanna" far_future false).


(** ** Vocabulary of the statements *)

(** The url [get_messages] reads for a [MessageType]. *)
Definition url_for (message_type : string) : QueueUrl :=
  if eqb_str message_type "Message" then QueueName else BotQueueName.

(** A fetched message passes the recipient filter: no filter is set, or
    the message is for that person. *)
Definition matches_filter (person_name : string) (m : SqsMessage) : bool :=
  negb (truthy person_name
        && negb (eqb_str (PersonName (message_attributes m)) person_name)).

(** The Occurrence State of the (uuid, person) pair of a message. *)
Definition occurrence_for (w : World) (m : SqsMessage) : Occurrence :=
  occurrence (occurrences w)
    (UUID (message_attributes m)) (PersonName (message_attributes m)).

(** A message is about the pair (uuid, person). *)
Definition about (uuid person : string) (m : SqsMessage) : bool :=
  bool_decide
    ((UUID (message_attributes m), PersonName (message_attributes m))
     = (uuid, person)).

(** The entry of a message is still in its queue. *)
Definition in_channel (w : World) (m : SqsMessage) : Prop :=
  receipt_handle m ∈ entry_handle <$> entries (queue_url m) w.

(** What one kept message does to the instance and to the world in
    [get_messages]. *)
Definition keep (m : SqsMessage) (self : MessageManager) : MessageManager :=
  let qm := QueuedMessage_of m in
  {| messages :=
       <[QueuedMessage.person_name qm :=
           match messages self !! QueuedMessage.person_name qm with
           | None => []
           | Some l => l
           end ++ [qm]]> (messages self);
     sqs_msgs := (λ l, l ++ [m]) <$> sqs_msgs self |}.

(** [self.sqs_msgs = []] *)
Definition reset_batch (self : MessageManager) : MessageManager :=
  {| messages := messages self; sqs_msgs := Some [] |}.

Definition fail_one (m : SqsMessage) (st : OccurrenceStore)
  : OccurrenceStore :=
  Scheduler.update_queue_status
    (UUID (message_attributes m)) (PersonName (message_attributes m))
    false st.

(** What the loop of [succeed_messages] does to the store for one
    message at time [now]. *)
Definition succeed_one (now : Z) (m : SqsMessage) (st : OccurrenceStore)
  : OccurrenceStore :=
  let uuid := UUID (message_attributes m) in
  let person := PersonName (message_attributes m) in
  let st' :=
    Scheduler.update_queue_status uuid person false
      (Scheduler.update_last_occurrence uuid person now st) in
  if NoMoreOccurrences (message_attributes m)
  then Scheduler.set_expired uuid person st'
  else st'.

Definition delete_one (m : SqsMessage) (w : World) : World :=
  delete_message (queue_url m) (receipt_handle m) w.

(** The three loops of the outcome methods as functions on the world. *)
Definition fail_pass (batch : list SqsMessage) (w : World) : World :=
  with_occurrences (λ st, fold_left (λ st m, fail_one m st) batch st) w.

Definition succeed_pass (batch : list SqsMessage) (w : World) : World :=
  with_occurrences
    (λ st, fold_left (λ st m, succeed_one (utcnow w) m st) batch st) w.

Definition delete_pass (batch : list SqsMessage) (w : World) : World :=
  fold_left (λ w m, delete_one m w) batch w.

(** An entry of the queue [url] is the entry of a message of the batch. *)
Definition claimed (url : QueueUrl) (batch : list SqsMessage) (e : Entry)
  : bool :=
  existsb (λ m, bool_decide (queue_url m = url)
                && bool_decide (receipt_handle m = entry_handle e)) batch.

(** The paragraphs of the messages of a group that are not expired, in
    the order of the group. *)
Definition paragraphs (now : Z) (group : list QueuedMessage) : string :=
  foldr (λ m s, if is_expired now m then s
                else "<p>" +:+ body m +:+ "</p>" +:+ s) "" group.

Definition is_value_error {A} (r : result A) : bool :=
  match r with
  | Raise (ValueError _) => true
  | _ => false
  end.

(** The scenarios of the examples: the clock reads 100, so that only
    [again_alice] is expired. *)
Definition one_for_alice : World :=
  world_with [hello_alice] [] (queued "u1" "alice") 100.

Definition two_for_alice : World :=
  world_with [hello_alice; again_alice] [] ∅ 100.

Definition one_for_bob : World := world_with [hello_bob] [] ∅ 100.

(** Eleven entries, one more than a receive hands out. *)
Definition backlog : list Entry :=
  (λ n, mkEntry n "Old news"
          (attributes_for "alice" "u9" "Joanna" far_future false))
    <$> seq 1 11.

Definition stale_queue : World := world_with backlog [] ∅ 100.

(** A manager that holds [hello_alice] as its batch. *)
Definition holding_hello : MessageManager :=
  {| messages :=
       {["alice" := [QueuedMessage_of (message_of QueueName hello_alice)]]};
     sqs_msgs := Some [message_of QueueName hello_alice] |}.

Definition no_tokens (person speech : string) : string := speech.

Definition no_windows (person : string) : string := "{}".

Definition hello_request (bot_names : option string) : Kw.publish :=
  {| Kw.ExpirationDateTimeInUtc := None;
     Kw.Body := Some "Hello";
     Kw.UUID := Some "u1";
     Kw.NoMoreOccurrences := Some true;
     Kw.PersonName := Some "alice";
     Kw.BotNames := bot_names;
     Kw.RequiredBots := None;
     Kw.IceBreaker := None;
     Kw.VoiceId := None;
     Kw.unexpected := [] |}.

(** ** Queue names and queue lookup *)

(** The two queue names [__init__] derives from the location name. *)
Definition queue_name_for (location_name : string) : string :=
  "pollexy-inbox-" +:+ location_name.

Definition bot_queue_name_for (location_name : string) : string :=
  queue_name_for location_name +:+ "-bot".

(** The first lines of [__init__]: the location name in lower case, the
    refusal of an empty one, and the two names.  [lower] stands for
    [str.lower]. *)
Definition queue_names (lower : string → string) (LocationName : string)
  : result (string * string) :=
  let location_name := lower LocationName in
  if decide (String.length location_name = 0%nat)
  then Raise (ValueError "Missing location name")
  else Return (queue_name_for location_name,
               bot_queue_name_for location_name).

(** A queue of the SQS service, as [sqs.queues.all()] lists it. *)
Module Sqs.
Record queue : Type := mk {
  name : string;
  url : string
}.
End Sqs.

(** [client.get_queue_url(QueueName=queue_name)]: the url of the queue of
    that name; [None] stands for the exception the client raises when
    there is none. *)
Definition get_queue_url (queue_name : string) (queues : list Sqs.queue)
  : option string :=
  Sqs.url <$> List.find (λ q, eqb_str (Sqs.name q) queue_name) queues.

(** [get_queue(queue_name)]: [None] when the url cannot be had, otherwise
    the first listed queue with that url; the loop that finds none falls
    off the function, which returns [None] again. *)
Definition get_queue (queue_name : string) (queues : list Sqs.queue)
  : option Sqs.queue :=
  match get_queue_url queue_name queues with
  | None => None
  | Some queue_url =>
      List.find (λ q, eqb_str (Sqs.url q) queue_url) queues
  end.

(** ** LibraryManager *)

(** The table [PollexyMessageLibrary] with its hash key [name]: at most
    one item per name, kept here as the message stored under the name. *)
Module LibraryManager.

(** An item as [get_message] returns it. *)
Record item : Type := mk {
  name : string;
  message : string
}.

(** [update_message(Name, Message)]: [put_item] replaces the item of that
    name. *)
Definition update_message (Name Message : string)
    (table : gmap string string) : gmap string string :=
  <[Name := Message]> table.

(** [get_message(Name)]: the item, or [None] when the response has no
    [Item]. *)
Definition get_message (Name : string) (table : gmap string string)
  : option item :=
  match table !! Name with
  | None => None
  | Some Message => Some {| name := Name; message := Message |}
  end.

(** [delete_message(Name)] *)
Definition delete_message (Name : string) (table : gmap string string)
  : gmap string string :=
  delete Name table.

End LibraryManager.

(** ** More vocabulary *)

(** A queue without the entries that carry the handle of its first
    entry. *)
Definition without_head (l : list Entry) : list Entry :=
  match l with
  | [] => []
  | e :: _ => filter (λ e', entry_handle e' ≠ entry_handle e) l
  end.

(** The first entry of a queue as a receive without filter holds it. *)
Definition head_batch (url : QueueUrl) (w : World) : list SqsMessage :=
  match entries url w with
  | [] => []
  | e :: _ => [message_of url e]
  end.

(** The queues hold what [publish_message] routes to them: no entry of
    the message queue names bots, every entry of the bot queue does. *)
Definition routed (w : World) : Prop :=
  Forall (λ e, BotNames (entry_attributes e) = None) (queue w)
  ∧ Forall (λ e, truthy_opt (BotNames (entry_attributes e)) = true)
      (bot_queue w).

(** The Message Record a request of [publish_message] stands for. *)
Definition requested (uuid4 : string) (kwargs : Kw.publish)
  : QueuedMessage :=
  {| QueuedMessage.person_name := default "" (Kw.PersonName kwargs);
     uuid_key := default uuid4 (Kw.UUID kwargs);
     body := default "" (Kw.Body kwargs);
     voice_id := default "Joanna" (Kw.VoiceId kwargs);
     expiration_datetime_in_utc :=
       default far_future (Kw.ExpirationDateTimeInUtc kwargs);
     no_more_occurrences := default false (Kw.NoMoreOccurrences kwargs) |}.

(** The queues of one location as the service lists them. *)
Definition listed_queues : list Sqs.queue :=
  [ {| Sqs.name := "pollexy-inbox-home";
       Sqs.url := "https://sqs/pollexy-inbox-home" |};
    {| Sqs.name := "pollexy-inbox-home-bot";
       Sqs.url := "https://sqs/pollexy-inbox-home-bot" |} ].

Definition empty_world : World := world_with [] [] ∅ 100.

Definition as_given (s : string) : string := s.

(** * Properties *)

(** ** The monad *)

Lemma bind_run {A B} (c : M A) (f : A → M B) self w :
  (c ≫= f) self w =
  match c self w with
  | (Return a, self', w') => f a self' w'
  | (Raise e, self', w') => (Raise e, self', w')
  end.
Proof. reflexivity. Qed.

(** Run the primitive steps at the head of a computation. *)
Ltac run :=
  repeat (rewrite bind_run;
          cbn [get_self put_self get_world modify_world mret M_ret raise]).

(** A loop whose body only acts on the world is a fold over the list. *)
Lemma for_each_world {A} (f : A → M unit) (g : A → World → World) l :
  (∀ x self w, f x self w = (Return tt, self, g x w)) →
  ∀ self w,
    for_each l f self w = (Return tt, self, fold_left (λ w x, g x w) l w).
Proof.
  intros Hf. induction l as [|x l IH]; intros self w; [done|].
  cbn [for_each fold_left]. rewrite bind_run, Hf. apply IH.
Qed.

(** ** The constructor *)

Lemma init_fresh location_name :
  location_name ≠ "" → init location_name = Return fresh_manager.
Proof. by destruct location_name. Qed.

Lemma init_missing_location :
  init "" = Raise (ValueError "Missing location name").
Proof. reflexivity. Qed.

(** ** The occurrence store *)

Lemma occurrence_insert (st : OccurrenceStore) k o uuid person :
  occurrence (<[k := o]> st) uuid person =
  if decide (k = (uuid, person)) then o else occurrence st uuid person.
Proof.
  unfold occurrence. rewrite lookup_insert. by case_decide.
Qed.

Lemma about_true uuid person m :
  about uuid person m = true ↔
  (UUID (message_attributes m), PersonName (message_attributes m))
  = (uuid, person).
Proof. unfold about. apply bool_decide_eq_true. Qed.

Lemma about_self m :
  about (UUID (message_attributes m)) (PersonName (message_attributes m)) m
  = true.
Proof. by apply about_true. Qed.

Lemma fail_one_occurrence m st uuid person :
  occurrence (fail_one m st) uuid person =
  let o := occurrence st uuid person in
  if about uuid person m
  then {| in_queue := false; last_occurrence := last_occurrence o;
          expired := expired o |}
  else o.
Proof.
  unfold fail_one, Scheduler.update_queue_status, about.
  rewrite occurrence_insert. cbn zeta.
  case_decide as Hk; [rewrite bool_decide_eq_true_2 by done
                     |by rewrite bool_decide_eq_false_2].
  by injection Hk as -> ->.
Qed.

Lemma succeed_one_occurrence now m st uuid person :
  occurrence (succeed_one now m st) uuid person =
  let o := occurrence st uuid person in
  if about uuid person m
  then {| in_queue := false; last_occurrence := Some now;
          expired := expired o || NoMoreOccurrences (message_attributes m) |}
  else o.
Proof.
  unfold succeed_one, Scheduler.set_expired, Scheduler.update_queue_status,
    Scheduler.update_last_occurrence, about.
  cbn zeta.
  destruct (NoMoreOccurrences (message_attributes m));
    rewrite !occurrence_insert;
    case_bool_decide as Hk; repeat case_decide; try done;
    simplify_eq; cbn; by rewrite ?orb_true_r, ?orb_false_r.
Qed.

Lemma fail_pass_occurrence batch st uuid person :
  occurrence (fold_left (λ st m, fail_one m st) batch st) uuid person =
  let o := occurrence st uuid person in
  if existsb (about uuid person) batch
  then {| in_queue := false; last_occurrence := last_occurrence o;
          expired := expired o |}
  else o.
Proof.
  revert st. induction batch as [|m batch IH]; intros st; [done|].
  cbn [fold_left existsb]. rewrite IH, fail_one_occurrence. cbn zeta.
  destruct (about uuid person m), (existsb (about uuid person) batch); done.
Qed.

Lemma existsb_and_false {A} (f g : A → bool) l :
  existsb f l = false → existsb (λ x, f x && g x) l = false.
Proof.
  induction l as [|x l IH]; [done|]. cbn.
  intros [-> Hl]%orb_false_elim. cbn. by apply IH.
Qed.

Lemma succeed_pass_occurrence now batch st uuid person :
  occurrence (fold_left (λ st m, succeed_one now m st) batch st) uuid person =
  let o := occurrence st uuid person in
  if existsb (about uuid person) batch
  then {| in_queue := false; last_occurrence := Some now;
          expired :=
            expired o
            || existsb (λ m, about uuid person m
                             && NoMoreOccurrences (message_attributes m))
                 batch |}
  else o.
Proof.
  revert st. induction batch as [|m batch IH]; intros st; [done|].
  cbn [fold_left existsb]. rewrite IH, succeed_one_occurrence. cbn zeta.
  destruct (about uuid person m),
    (existsb (about uuid person) batch) eqn:Hb;
    cbn; rewrite ?(existsb_and_false _ _ _ Hb), ?orb_false_r, ?orb_assoc;
    done.
Qed.

(** ** The loops of the outcome methods *)

Lemma fold_fail_pass batch w :
  fold_left (λ w m, with_occurrences (fail_one m) w) batch w
  = fail_pass batch w.
Proof.
  revert w. induction batch as [|m batch IH]; intros w; [by destruct w|].
  cbn [fold_left]. by rewrite IH.
Qed.

Lemma fold_succeed_pass batch w :
  fold_left (λ w m, with_occurrences (succeed_one (utcnow w) m) w) batch w
  = succeed_pass batch w.
Proof.
  revert w. induction batch as [|m batch IH]; intros w; [by destruct w|].
  cbn [fold_left]. by rewrite IH.
Qed.

Lemma delete_pass_occurrences batch w :
  occurrences (delete_pass batch w) = occurrences w.
Proof.
  revert w. induction batch as [|m batch IH]; intros w; [done|].
  unfold delete_pass in *. cbn [fold_left]. rewrite IH.
  unfold delete_one, delete_message. by destruct (queue_url m).
Qed.

Lemma delete_pass_utcnow batch w :
  utcnow (delete_pass batch w) = utcnow w.
Proof.
  revert w. induction batch as [|m batch IH]; intros w; [done|].
  unfold delete_pass in *. cbn [fold_left]. rewrite IH.
  unfold delete_one, delete_message. by destruct (queue_url m).
Qed.

Lemma entries_with_entries url url' l w :
  entries url (with_entries url' l w)
  = if decide (url' = url) then l else entries url w.
Proof. by destruct url, url'. Qed.

Lemma filter_all {A} (P : A → Prop) `{!∀ x, Decision (P x)} (l : list A) :
  (∀ x, P x) → filter P l = l.
Proof.
  intros HP. induction l as [|x l IH]; [done|].
  by rewrite filter_cons_True, IH.
Qed.

(** After the deletions a queue holds the entries that no message of the
    batch names. *)
Lemma delete_pass_entries url batch w :
  entries url (delete_pass batch w)
  = filter (λ e, claimed url batch e = false) (entries url w).
Proof.
  revert w. induction batch as [|m batch IH]; intros w.
  - cbn. symmetry. by apply filter_all.
  - unfold delete_pass in *. cbn [fold_left]. rewrite IH.
    unfold delete_one, delete_message. rewrite entries_with_entries.
    case_decide as Hu.
    + subst url. rewrite list_filter_filter. apply list_filter_iff.
      intros e. cbn [claimed existsb].
      rewrite (bool_decide_eq_true_2 (queue_url m = queue_url m)) by done.
      destruct (decide (receipt_handle m = entry_handle e)) as [Hh|Hh].
      * rewrite (bool_decide_eq_true_2 _ Hh). cbn.
        split; [intros [_ Hne]; by destruct Hne | done].
      * rewrite (bool_decide_eq_false_2 _ Hh). cbn.
        split; [by intros [? _] | by intros ?].
    + apply list_filter_iff. intros e. cbn [claimed existsb].
      by rewrite (bool_decide_eq_false_2 _ Hu).
Qed.

(** ** What each method computes *)

(** The loop of [get_messages] stops at the first message that passes the
    filter. *)
Lemma get_messages_loop_run person_name received msgs self w :
  get_messages_loop person_name received msgs self w =
  match List.find (matches_filter person_name) received with
  | Some m =>
      (Return (Some (msgs ++ [QueuedMessage_of m])),
       keep m self, with_occurrences (fail_one m) w)
  | None => (Return None, self, w)
  end.
Proof.
  induction received as [|m rest IH]; [done|].
  cbn [get_messages_loop List.find]. unfold matches_filter at 1.
  cbn [QueuedMessage_of QueuedMessage.person_name].
  destruct (truthy person_name
            && negb (eqb_str (PersonName (message_attributes m)) person_name));
    [apply IH | reflexivity].
Qed.

Lemma get_messages_run person_name message_type wait max self w :
  get_messages person_name message_type wait max self w =
  match List.find (matches_filter person_name)
          (receive_messages (url_for message_type) max w) with
  | Some m =>
      (Return (Some [QueuedMessage_of m]),
       keep m (reset_batch self), with_occurrences (fail_one m) w)
  | None => (Return None, reset_batch self, w)
  end.
Proof.
  unfold get_messages. run. fold (url_for message_type).
  case_bool_decide as Hlen.
  - apply get_messages_loop_run.
  - destruct (receive_messages (url_for message_type) max w); [done|].
    cbn in Hlen. lia.
Qed.

Lemma delete_sqs_msgs_run self w batch :
  sqs_msgs self = Some batch →
  delete_sqs_msgs self w = (Return tt, self, delete_pass batch w).
Proof.
  intros Hb. unfold delete_sqs_msgs. run. rewrite Hb.
  by apply (for_each_world _ delete_one).
Qed.

Lemma fail_messages_run reason self w batch :
  sqs_msgs self = Some batch →
  fail_messages reason false self w
  = (Return tt, self, delete_pass batch (fail_pass batch w)).
Proof.
  intros Hb. unfold fail_messages. run. rewrite Hb, bind_run.
  rewrite (for_each_world _ (λ m, with_occurrences (fail_one m)))
    by reflexivity.
  rewrite fold_fail_pass. by apply delete_sqs_msgs_run.
Qed.

Lemma succeed_messages_run self w batch :
  sqs_msgs self = Some batch →
  succeed_messages false self w
  = (Return tt, self, delete_pass batch (succeed_pass batch w)).
Proof.
  intros Hb. unfold succeed_messages. run. rewrite Hb, bind_run.
  rewrite (for_each_world _
             (λ m w, with_occurrences (succeed_one (utcnow w) m) w)).
  - rewrite fold_succeed_pass. by apply delete_sqs_msgs_run.
  - intros m self' w'. run. unfold succeed_one.
    cbn [QueuedMessage_of uuid_key QueuedMessage.person_name
         no_more_occurrences].
    by destruct (NoMoreOccurrences (message_attributes m)).
Qed.

Lemma existsb_about_self m batch :
  m ∈ batch →
  existsb (about (UUID (message_attributes m))
                 (PersonName (message_attributes m))) batch = true.
Proof.
  intros Hm. apply existsb_exists. exists m.
  split; [by apply list_elem_of_In | apply about_self].
Qed.

(** After the failure loop: the pairs of the batch are not in queue, and
    the other two fields of every pair are as before. *)
Lemma fail_pass_fields batch w uuid person :
  let o := occurrence (occurrences w) uuid person in
  let o' := occurrence (occurrences (fail_pass batch w)) uuid person in
  in_queue o'
  = (if existsb (about uuid person) batch then false else in_queue o)
  ∧ last_occurrence o' = last_occurrence o
  ∧ expired o' = expired o.
Proof.
  cbn. rewrite fail_pass_occurrence. cbn zeta.
  by destruct (existsb (about uuid person) batch).
Qed.

(** ** receive *)

Lemma get_messages_at_most_one person_name message_type wait max self w :
  let r := get_messages person_name message_type wait max self w in
  (value_of r = Return None ∧ sqs_msgs (self_of r) = Some [])
  ∨ ∃ m, value_of r = Return (Some [QueuedMessage_of m])
         ∧ sqs_msgs (self_of r) = Some [m].
Proof.
  cbn. rewrite get_messages_run.
  destruct (find _ _) as [m|]; [right; by exists m | by left].
Qed.

(** The groups of [self.messages] only grow: a call appends to the group
    of one person and drops nothing that an earlier call has put there. *)
Lemma get_messages_groups_grow person_name message_type wait max self w
    p (l : list QueuedMessage) :
  messages self !! p = Some l →
  ∃ l', messages
          (self_of (get_messages person_name message_type wait max self w))
        !! p = Some (l ++ l').
Proof.
  intros Hp. rewrite get_messages_run.
  destruct (find _ _) as [m|]; cbn.
  - destruct (decide (PersonName (message_attributes m) = p)) as [->|Hne].
    + rewrite lookup_insert_eq, Hp. by eexists.
    + rewrite lookup_insert_ne by done. exists []. by rewrite app_nil_r.
  - exists []. by rewrite app_nil_r.
Qed.

(** A resolution without [DontDelete] returns and leaves every message
    of the held batch out of the queue state, from whatever state the
    store is in. *)
Lemma resolution_clears_batch reason self w batch :
  sqs_msgs self = Some batch →
  let rs := succeed_messages false self w in
  let rf := fail_messages reason false self w in
  value_of rs = Return tt ∧ value_of rf = Return tt
  ∧ Forall (λ m, in_queue (occurrence_for (world_of rs) m) = false
                 ∧ in_queue (occurrence_for (world_of rf) m) = false) batch.
Proof.
  intros Hb. cbn zeta.
  rewrite (succeed_messages_run _ _ _ Hb), (fail_messages_run _ _ _ _ Hb).
  split; [done|]. split; [done|].
  apply Forall_forall. intros m Hm. unfold occurrence_for.
  cbn [world_of snd]. rewrite !delete_pass_occurrences.
  cbn [succeed_pass fail_pass with_occurrences occurrences].
  rewrite succeed_pass_occurrence, fail_pass_occurrence. cbn zeta.
  by rewrite (existsb_about_self _ _ Hm).
Qed.

(** No resolution puts a pair in queue: after [succeed_messages] or
    [fail_messages] the state of a pair is as it was, or it is not in
    queue. *)
Lemma resolution_never_queues dont_delete reason self w uuid person :
  let rs := succeed_messages dont_delete self w in
  let rf := fail_messages reason dont_delete self w in
  (in_queue (occurrence (occurrences (world_of rs)) uuid person) = false
   ∨ occurrence (occurrences (world_of rs)) uuid person
     = occurrence (occurrences w) uuid person)
  ∧ (in_queue (occurrence (occurrences (world_of rf)) uuid person) = false
     ∨ occurrence (occurrences (world_of rf)) uuid person
       = occurrence (occurrences w) uuid person).
Proof.
  cbn zeta. destruct dont_delete; [split; by right|].
  destruct (sqs_msgs self) as [batch|] eqn:Hb.
  - rewrite (succeed_messages_run _ _ _ Hb), (fail_messages_run _ _ _ _ Hb).
    cbn [world_of snd]. rewrite !delete_pass_occurrences.
    cbn [succeed_pass fail_pass with_occurrences occurrences].
    rewrite succeed_pass_occurrence, fail_pass_occurrence. cbn zeta.
    destruct (existsb (about uuid person) batch);
      split; (by left) || (by right).
  - unfold succeed_messages, fail_messages. run. rewrite Hb.
    split; by right.
Qed.

(** C1, as amended.  Every message that [get_messages] holds as its batch
    was fetched by this call and passes the recipient filter, and the
    Occurrence State of its (uuid, person) pair is not in queue when the
    call returns: the status is written with [False] at the moment the
    message is kept.  No pair is put in queue by the call: the state of a
    pair is as it was, or it is not in queue.  A resolution of the batch
    that comes later, in whatever state the store then is, returns and
    writes the batch out of the queue state again when [DontDelete] is
    unset, and writes nothing when [DontDelete] is set; no resolution
    puts a pair in queue. *)
Theorem get_messages_clears_in_queue
    person_name message_type wait max self w :
  let r := get_messages person_name message_type wait max self w in
  (∃ batch,
      sqs_msgs (self_of r) = Some batch
      ∧ Forall (λ m, m ∈ receive_messages (url_for message_type) max w
                     ∧ matches_filter person_name m = true
                     ∧ in_queue (occurrence_for (world_of r) m) = false)
          batch
      ∧ ∀ reason w',
          let rs := succeed_messages false (self_of r) w' in
          let rf := fail_messages reason false (self_of r) w' in
          value_of rs = Return tt ∧ value_of rf = Return tt
          ∧ Forall (λ m,
                in_queue (occurrence_for (world_of rs) m) = false
                ∧ in_queue (occurrence_for (world_of rf) m) = false) batch
          ∧ succeed_messages true (self_of r) w' = (Return tt, self_of r, w')
          ∧ fail_messages reason true (self_of r) w'
            = (Return tt, self_of r, w'))
  ∧ (∀ uuid person,
        in_queue (occurrence (occurrences (world_of r)) uuid person) = false
        ∨ occurrence (occurrences (world_of r)) uuid person
          = occurrence (occurrences w) uuid person)
  ∧ ∀ dont_delete reason w' uuid person,
      let rs := succeed_messages dont_delete (self_of r) w' in
      let rf := fail_messages reason dont_delete (self_of r) w' in
      (in_queue (occurrence (occurrences (world_of rs)) uuid person) = false
       ∨ occurrence (occurrences (world_of rs)) uuid person
         = occurrence (occurrences w') uuid person)
      ∧ (in_queue (occurrence (occurrences (world_of rf)) uuid person) = false
         ∨ occurrence (occurrences (world_of rf)) uuid person
           = occurrence (occurrences w') uuid person).
Proof.
  cbn zeta. split; [|split].
  - rewrite get_messages_run.
    destruct (find _ _) as [m|] eqn:Hfind; cbn [self_of world_of fst snd].
    + apply find_some in Hfind as [Hin Hm].
      exists [m]. split; [done|]. split.
      * apply Forall_singleton. split; [by apply list_elem_of_In|].
        split; [done|].
        unfold occurrence_for. cbn. rewrite fail_one_occurrence.
        cbn zeta. by rewrite about_self.
      * intros reason w'.
        destruct (resolution_clears_batch reason (keep m (reset_batch self))
                    w' [m] eq_refl) as (Hs & Hf & Hall).
        by repeat split.
    + exists []. split; [done|]. split; [by apply Forall_nil|].
      intros reason w'.
      destruct (resolution_clears_batch reason (reset_batch self) w' []
                  eq_refl) as (Hs & Hf & Hall).
      by repeat split.
  - intros uuid person. rewrite get_messages_run.
    destruct (find _ _) as [m|]; cbn [world_of snd]; [|by right].
    cbn. rewrite fail_one_occurrence. cbn zeta.
    destruct (about uuid person m); [by left | by right].
  - intros dont_delete reason w' uuid person.
    apply resolution_never_queues.
Qed.

(** ** resolveSuccess and resolveFailure *)

(** With [DontDelete] unset, [succeed_messages] gives every message of
    the batch its last occurrence, takes it out of the queue state, marks
    it expired when it has no more occurrences, and deletes its entry. *)
Lemma succeed_messages_resolves self w batch :
  sqs_msgs self = Some batch →
  let r := succeed_messages false self w in
  value_of r = Return tt
  ∧ Forall (λ m,
        let o := occurrence_for (world_of r) m in
        last_occurrence o = Some (utcnow w)
        ∧ in_queue o = false
        ∧ (if NoMoreOccurrences (message_attributes m)
           then expired o = true else True)
        ∧ ¬ in_channel (world_of r) m) batch.
Proof.
  intros Hb. cbn zeta. rewrite (succeed_messages_run _ _ _ Hb).
  split; [done|]. apply Forall_forall. intros m Hm.
  unfold occurrence_for. cbn [world_of snd].
  rewrite delete_pass_occurrences. cbn [succeed_pass with_occurrences
    occurrences]. rewrite succeed_pass_occurrence. cbn zeta.
  rewrite (existsb_about_self _ _ Hm). cbn.
  repeat split.
  - destruct (NoMoreOccurrences (message_attributes m)) eqn:Hno; [|done].
    apply orb_true_iff. right. apply existsb_exists. exists m.
    split; [by apply list_elem_of_In|]. by rewrite about_self, Hno.
  - unfold in_channel. rewrite delete_pass_entries.
    intros (e & He & [Hc _]%list_elem_of_filter)%list_elem_of_fmap.
    assert (claimed (queue_url m) batch e = true) as Hc'; [|congruence].
    apply existsb_exists. exists m. split; [by apply list_elem_of_In|].
    by rewrite !bool_decide_eq_true_2.
Qed.

(** C3, as amended.  [succeed_messages] called with [DontDelete] true
    returns at once: no channel entry is deleted, and the Occurrence
    State is not touched either (no last occurrence is written, no pair
    leaves the queue state, none is marked expired). *)
Theorem succeed_messages_dont_delete self w :
  let r := succeed_messages true self w in
  value_of r = Return tt
  ∧ self_of r = self
  ∧ (∀ url, entries url (world_of r) = entries url w)
  ∧ ∀ uuid person,
      occurrence (occurrences (world_of r)) uuid person
      = occurrence (occurrences w) uuid person.
Proof.
  cbn zeta. unfold succeed_messages. cbn [mret M_ret].
  split; [reflexivity|]. split; [reflexivity|].
  split; intros; reflexivity.
Qed.

(** C5, as amended.  [fail_messages] never writes a last occurrence and
    never marks a pair expired, whatever the messages say about further
    occurrences.  With [DontDelete] unset it takes every message of the
    batch out of the queue state; with [DontDelete] set it returns at
    once and leaves the whole world as it is. *)
Theorem fail_messages_outcome reason dont_delete self w batch :
  sqs_msgs self = Some batch →
  let r := fail_messages reason dont_delete self w in
  value_of r = Return tt
  ∧ (if dont_delete then world_of r = w
     else Forall (λ m, in_queue (occurrence_for (world_of r) m) = false)
            batch)
  ∧ ∀ uuid person,
      let o := occurrence (occurrences w) uuid person in
      let o' := occurrence (occurrences (world_of r)) uuid person in
      last_occurrence o' = last_occurrence o ∧ expired o' = expired o.
Proof.
  intros Hb. destruct dont_delete; [by cbn|].
  cbn zeta. rewrite (fail_messages_run _ _ _ _ Hb). cbn [value_of world_of
    fst snd]. rewrite delete_pass_occurrences.
  split; [done|]. split.
  - apply Forall_forall. intros m Hm. unfold occurrence_for.
    rewrite delete_pass_occurrences.
    destruct (fail_pass_fields batch w (UUID (message_attributes m))
                (PersonName (message_attributes m))) as (-> & _ & _).
    by rewrite (existsb_about_self _ _ Hm).
  - intros uuid person.
    by destruct (fail_pass_fields batch w uuid person) as (_ & -> & ->).
Qed.

(** C4, as amended.  A second [succeed_messages] on the same batch does
    not raise and writes the same updates again: the last occurrence of
    every message of the batch becomes the time of the second call, where
    the first call had left the time of the first; the pair stays out of
    the queue state and its expired flag stays as the first call left
    it. *)
Theorem succeed_messages_twice self w batch t2 :
  sqs_msgs self = Some batch →
  let r1 := succeed_messages false self w in
  let r2 := succeed_messages false (self_of r1) (at_time t2 (world_of r1)) in
  value_of r1 = Return tt ∧ value_of r2 = Return tt
  ∧ Forall (λ m,
        let o1 := occurrence_for (world_of r1) m in
        let o2 := occurrence_for (world_of r2) m in
        last_occurrence o1 = Some (utcnow w)
        ∧ last_occurrence o2 = Some t2
        ∧ in_queue o2 = false
        ∧ expired o2 = expired o1) batch.
Proof.
  intros Hb. cbn zeta. rewrite (succeed_messages_run _ _ _ Hb).
  cbn [self_of world_of value_of fst snd].
  rewrite (succeed_messages_run _ _ _ Hb).
  cbn [self_of world_of value_of fst snd].
  split; [done|]. split; [done|].
  apply Forall_forall. intros m Hm. unfold occurrence_for.
  rewrite !delete_pass_occurrences.
  cbn [succeed_pass with_occurrences at_time occurrences utcnow].
  rewrite delete_pass_occurrences.
  cbn [succeed_pass with_occurrences at_time occurrences utcnow].
  rewrite !succeed_pass_occurrence. cbn zeta.
  rewrite (existsb_about_self _ _ Hm). cbn.
  repeat split. by rewrite <- orb_assoc, orb_diag.
Qed.

(** ** composeSpeech *)

Lemma append_cons a (s t : string) : String a s +:+ t = String a (s +:+ t).
Proof. reflexivity. Qed.

Lemma append_assoc (s1 s2 s3 : string) :
  (s1 +:+ s2) +:+ s3 = s1 +:+ (s2 +:+ s3).
Proof.
  induction s1 as [|a s1 IH]; [done|]. by rewrite !append_cons, IH.
Qed.

Lemma append_empty_r (s : string) : s +:+ "" = s.
Proof. induction s as [|a s IH]; [done|]. by rewrite append_cons, IH. Qed.

(** The loop of [write_speech] appends the paragraphs of the messages
    that are not expired. *)
Lemma speak_all now group speech :
  fold_left (speak_one now) group speech = speech +:+ paragraphs now group.
Proof.
  revert speech. induction group as [|m group IH]; intros speech.
  - cbn. by rewrite append_empty_r.
  - cbn [fold_left paragraphs foldr]. rewrite IH. unfold speak_one.
    fold (paragraphs now group).
    destruct (is_expired now m); cbn [negb]; [done|].
    by rewrite !append_assoc.
Qed.

Lemma paragraphs_empty now group :
  paragraphs now group = "" ↔ forallb (is_expired now) group = true.
Proof.
  induction group as [|m group IH]; [done|].
  cbn [paragraphs foldr forallb]. fold (paragraphs now group).
  destruct (is_expired now m); cbn; [done|]. split; discriminate.
Qed.

Lemma speech_unchanged now group :
  eqb_str (fold_left (speak_one now) group "<speak>") "<speak>"
  = forallb (is_expired now) group.
Proof.
  rewrite speak_all. unfold eqb_str.
  destruct (forallb (is_expired now) group) eqn:Hall.
  - apply paragraphs_empty in Hall as ->. by apply bool_decide_eq_true_2.
  - apply bool_decide_eq_false_2. intros Heq.
    assert (paragraphs now group = "") as Hp.
    { apply (inj (String.append "<speak>")). by rewrite append_empty_r. }
    apply paragraphs_empty in Hp. congruence.
Qed.

Section Speech.

Variable replace_tokens : string → string → string.

(** [write_speech] after its receive: nothing when no group is held at
    all or when every message of the person's group is expired, a
    [KeyError] when groups are held but none for the person, and otherwise
    the paragraphs of the messages that are not expired with the voice of
    the last message of the group, expired or not. *)
Lemma write_speech_run dont_delete person_name self w :
  let r0 := get_messages person_name "Message" 0 10 self w in
  let self' := self_of r0 in
  let w' := world_of r0 in
  write_speech replace_tokens dont_delete person_name self w =
  if decide (size (messages self') = 0%nat)
  then (Return (None, None), self', w')
  else
    match messages self' !! person_name with
    | None => (Raise (KeyError person_name), self', w')
    | Some group =>
        if forallb (is_expired (utcnow w')) group
        then (Return (None, None), self', w')
        else
          match last group with
          | None => (Raise (UnboundLocalError "m"), self', w')
          | Some m =>
              (Return
                 (Some (voice_id m),
                  Some (replace_tokens person_name
                          ("<speak>" +:+ paragraphs (utcnow w') group
                           +:+ "</speak>"))),
               self', w')
          end
    end.
Proof.
  cbn zeta. unfold write_speech. rewrite bind_run, get_messages_run.
  destruct (find _ _) as [m|]; cbn [self_of world_of fst snd]; run;
    (case_decide; [done|]);
    (destruct (messages _ !! person_name) as [group|]; [|done]);
    run; rewrite speech_unchanged;
    (destruct (forallb _ group); [done|]);
    rewrite speak_all, append_assoc; by destruct (last group).
Qed.

End Speech.

(** ** publish *)

Section Publish.

Variable time_windows_json : string → string.

(** C9.  [publish_message] raises its [ValueError] exactly when the
    person name is empty, the body is empty, or the uuid is empty after
    the default has been taken; a request with all three present is not
    refused by these checks.  A refused request sends nothing: both
    queues, and the rest of the world, are as before. *)
Theorem publish_message_validation uuid4 kwargs self w :
  let r := publish_message time_windows_json uuid4 kwargs self w in
  is_value_error (value_of r)
  = negb (truthy (default "" (Kw.PersonName kwargs)))
    || negb (truthy (default uuid4 (Kw.UUID kwargs)))
    || negb (truthy (default "" (Kw.Body kwargs)))
  ∧ (if is_value_error (value_of r)
     then self_of r = self ∧ world_of r = w
     else True).
Proof.
  cbn zeta. unfold publish_message.
  destruct (truthy (default "" (Kw.PersonName kwargs))); [|done].
  destruct (truthy (default uuid4 (Kw.UUID kwargs))); [|done].
  destruct (truthy (default "" (Kw.Body kwargs))); [|done].
  cbn [negb orb].
  destruct (Kw.unexpected kwargs); [|done].
  by destruct (truthy_opt (Kw.BotNames kwargs)).
Qed.

(** C8.  A request that passes the checks of [publish_message] is sent
    to exactly one queue: one entry with the body, the person and the
    uuid of the request is added to the bot queue when [BotNames] is
    given and not empty, and to the message queue otherwise; the other
    queue is as before. *)
Theorem publish_message_routes uuid4 kwargs self w :
  truthy (default "" (Kw.PersonName kwargs)) = true →
  truthy (default uuid4 (Kw.UUID kwargs)) = true →
  truthy (default "" (Kw.Body kwargs)) = true →
  Kw.unexpected kwargs = [] →
  let r := publish_message time_windows_json uuid4 kwargs self w in
  value_of r = Return tt
  ∧ ∃ e,
      entry_body e = default "" (Kw.Body kwargs)
      ∧ PersonName (entry_attributes e) = default "" (Kw.PersonName kwargs)
      ∧ UUID (entry_attributes e) = default uuid4 (Kw.UUID kwargs)
      ∧ if truthy_opt (Kw.BotNames kwargs)
        then bot_queue (world_of r) = bot_queue w ++ [e]
             ∧ queue (world_of r) = queue w
        else queue (world_of r) = queue w ++ [e]
             ∧ bot_queue (world_of r) = bot_queue w.
Proof.
  intros Hperson Huuid Hbody Hrest. cbn zeta. unfold publish_message.
  rewrite Hperson, Huuid, Hbody, Hrest. cbn [negb].
  destruct (truthy_opt (Kw.BotNames kwargs)); cbn;
    (split; [done|]); eexists;
    (split; [|split; [|split; [|split; reflexivity]]]); reflexivity.
Qed.

End Publish.

(** ** resetChannel *)

Lemma fail_pass_entries url batch w :
  entries url (fail_pass batch w) = entries url w.
Proof. by destruct url. Qed.

Lemma fail_pass_world_occurrence batch w uuid person :
  occurrence (occurrences (fail_pass batch w)) uuid person =
  let o := occurrence (occurrences w) uuid person in
  if existsb (about uuid person) batch
  then {| in_queue := false; last_occurrence := last_occurrence o;
          expired := expired o |}
  else o.
Proof. apply fail_pass_occurrence. Qed.

Lemma claimed_app url b1 b2 e :
  claimed url (b1 ++ b2) e = claimed url b1 e || claimed url b2 e.
Proof. apply existsb_app. Qed.

(** A message received from one queue names no entry of the other. *)
Lemma claimed_other_queue url url' n w batch e :
  url ≠ url' →
  Forall (λ m, m ∈ receive_messages url n w) batch →
  claimed url' batch e = false.
Proof.
  intros Hne Hall. induction Hall as [|m batch Hm _ IH]; [done|].
  cbn [claimed existsb]. fold (claimed url' batch e). rewrite IH.
  unfold receive_messages in Hm.
  apply list_elem_of_fmap in Hm as (e' & -> & _). cbn.
  by rewrite bool_decide_eq_false_2.
Qed.

(** One receive: it returns, holds a batch of fetched messages, and has
    written their status. *)
Lemma get_messages_held person_name message_type wait max self w :
  let r := get_messages person_name message_type wait max self w in
  ∃ v batch,
    value_of r = Return v
    ∧ sqs_msgs (self_of r) = Some batch
    ∧ Forall (λ m, m ∈ receive_messages (url_for message_type) max w) batch
    ∧ world_of r = fail_pass batch w.
Proof.
  cbn zeta. rewrite get_messages_run.
  destruct (find _ _) as [m|] eqn:Hfind.
  - apply find_some in Hfind as [Hin _].
    exists (Some [QueuedMessage_of m]), [m]. repeat split.
    apply Forall_singleton. by apply list_elem_of_In.
  - exists None, []. repeat split; [by apply Forall_nil | by destruct w].
Qed.

(** The two calls that follow each receive in [reset]. *)
Lemma fail_then_delete reason self w batch :
  sqs_msgs self = Some batch →
  (fail_messages reason false ;; delete_sqs_msgs) self w
  = (Return tt, self, delete_pass batch (delete_pass batch (fail_pass batch w))).
Proof.
  intros Hb. rewrite bind_run, (fail_messages_run _ _ _ _ Hb).
  by apply delete_sqs_msgs_run.
Qed.

Lemma reset_run self w :
  ∃ v1 self1 b1 v2 self2 b2,
    let w1 := delete_pass b1 (delete_pass b1 (fail_pass b1 (fail_pass b1 w))) in
    let w2 := delete_pass b2 (delete_pass b2 (fail_pass b2 (fail_pass b2 w1))) in
    get_messages "" "Bot" 0 10 self w = (Return v1, self1, fail_pass b1 w)
    ∧ sqs_msgs self1 = Some b1
    ∧ Forall (λ m, m ∈ receive_messages BotQueueName 10 w) b1
    ∧ get_messages "" "Message" 0 10 self1 w1
      = (Return v2, self2, fail_pass b2 w1)
    ∧ sqs_msgs self2 = Some b2
    ∧ Forall (λ m, m ∈ receive_messages QueueName 10 w1) b2
    ∧ reset self w = (Return tt, self2, w2).
Proof.
  destruct (get_messages_held "" "Bot" 0 10 self w)
    as (v1 & b1 & Hv1 & Hb1 & Hin1 & Hw1).
  destruct (get_messages "" "Bot" 0 10 self w) as [[x1 self1] w1'] eqn:E1.
  cbn in Hv1, Hb1, Hw1. subst x1 w1'.
  pose (w1 := delete_pass b1 (delete_pass b1 (fail_pass b1 (fail_pass b1 w)))).
  destruct (get_messages_held "" "Message" 0 10 self1 w1)
    as (v2 & b2 & Hv2 & Hb2 & Hin2 & Hw2).
  destruct (get_messages "" "Message" 0 10 self1 w1)
    as [[x2 self2] w2'] eqn:E2.
  cbn in Hv2, Hb2, Hw2. subst x2 w2'.
  exists v1, self1, b1, v2, self2, b2. cbn zeta. fold w1.
  repeat (split; [done|]).
  unfold reset. rewrite bind_run, E1.
  rewrite bind_run, (fail_messages_run _ _ _ _ Hb1).
  rewrite bind_run, (delete_sqs_msgs_run _ _ _ Hb1).
  fold w1. rewrite bind_run, E2.
  by apply fail_then_delete.
Qed.

(** The world after [reset], in terms of the two batches it held. *)
Lemma reset_outcome self w :
  let r := reset self w in
  value_of r = Return tt
  ∧ ∃ b1 b2,
      Forall (λ m, m ∈ receive_messages BotQueueName 10 w) b1
      ∧ Forall (λ m, m ∈ receive_messages QueueName 10 w) b2
      ∧ sqs_msgs (self_of r) = Some b2
      ∧ (∀ url,
            entries url (world_of r)
            = filter (λ e, claimed url (b1 ++ b2) e = false) (entries url w))
      ∧ Forall (λ m, in_queue (occurrence_for (world_of r) m) = false)
          (b1 ++ b2)
      ∧ ∀ uuid person,
          let o := occurrence (occurrences w) uuid person in
          let o' := occurrence (occurrences (world_of r)) uuid person in
          last_occurrence o' = last_occurrence o ∧ expired o' = expired o.
Proof.
  cbn zeta.
  destruct (reset_run self w)
    as (v1 & self1 & b1 & v2 & self2 & b2 & _ & _ & Hin1 & _ & Hb2 & Hin2 & ->).
  cbn [value_of self_of world_of fst snd]. split; [done|].
  assert (∀ url,
    entries url
      (delete_pass b1 (delete_pass b1 (fail_pass b1 (fail_pass b1 w))))
    = filter (λ e, claimed url b1 e = false) (entries url w)) as Hfirst.
  { intros url. rewrite !delete_pass_entries, !fail_pass_entries.
    rewrite list_filter_filter. apply list_filter_iff.
    intros e. split; [by intros [? _] | done]. }
  assert (∀ uuid person,
    occurrence
      (occurrences
         (delete_pass b2 (delete_pass b2 (fail_pass b2 (fail_pass b2
            (delete_pass b1 (delete_pass b1
               (fail_pass b1 (fail_pass b1 w)))))))))
      uuid person
    = let o := occurrence (occurrences w) uuid person in
      if existsb (about uuid person) b1 || existsb (about uuid person) b2
      then {| in_queue := false; last_occurrence := last_occurrence o;
              expired := expired o |}
      else o) as Hocc.
  { intros uuid person.
    rewrite !delete_pass_occurrences, !fail_pass_world_occurrence.
    rewrite !delete_pass_occurrences, !fail_pass_world_occurrence.
    cbn zeta.
    by destruct (existsb (about uuid person) b1),
      (existsb (about uuid person) b2). }
  exists b1, b2. split; [done|]. split; [|split; [done|]].
  - eapply Forall_impl; [exact Hin2|]. intros m. cbn beta.
    unfold receive_messages. rewrite Hfirst.
    rewrite filter_all; [done|].
    intros e. by eapply (claimed_other_queue BotQueueName QueueName).
  - split; [|split].
    + intros url. rewrite !delete_pass_entries, !fail_pass_entries.
      rewrite Hfirst, !list_filter_filter. apply list_filter_iff.
      intros e. rewrite claimed_app.
      destruct (claimed url b1 e), (claimed url b2 e); cbn;
        intuition congruence.
    + apply Forall_forall. intros m Hm. unfold occurrence_for.
      rewrite Hocc. cbn zeta.
      apply elem_of_app in Hm as [Hm|Hm];
        rewrite (existsb_about_self _ _ Hm), ?orb_true_r; done.
    + intros uuid person. rewrite Hocc. cbn zeta.
      by destruct (_ || _).
Qed.

(** Entries beyond the first ten of a queue, told apart by their handles,
    are still in the queue after [reset]. *)
Lemma reset_leaves_backlog self w url e :
  e ∈ entries url w →
  entry_handle e ∉ entry_handle <$> take 10 (entries url w) →
  e ∈ entries url (world_of (reset self w)).
Proof.
  intros He Hfresh.
  destruct (reset_outcome self w)
    as (_ & b1 & b2 & Hin1 & Hin2 & _ & -> & _).
  apply list_elem_of_filter. split; [|done].
  destruct (claimed url (b1 ++ b2) e) eqn:Hc; [|done].
  exfalso. apply Hfresh.
  apply existsb_exists in Hc as (m & Hm%list_elem_of_In & Hu).
  apply andb_true_iff in Hu as [Hu%bool_decide_eq_true Hh%bool_decide_eq_true].
  assert (m ∈ receive_messages url 10 w) as Hrecv.
  { apply elem_of_app in Hm as [Hm|Hm].
    - pose proof (proj1 (Forall_forall _ _) Hin1 m Hm) as Hr.
      unfold receive_messages in Hr.
      apply list_elem_of_fmap in Hr as (e' & -> & He').
      cbn in Hu. subst url. apply list_elem_of_fmap. by exists e'.
    - pose proof (proj1 (Forall_forall _ _) Hin2 m Hm) as Hr.
      unfold receive_messages in Hr.
      apply list_elem_of_fmap in Hr as (e' & -> & He').
      cbn in Hu. subst url. apply list_elem_of_fmap. by exists e'. }
  unfold receive_messages in Hrecv.
  apply list_elem_of_fmap in Hrecv as (e' & -> & He').
  cbn in Hh. rewrite <- Hh. apply list_elem_of_fmap. by exists e'.
Qed.

(** C10, as amended.  [reset] does not loop: it makes one receive of at
    most ten messages on the bot queue and then, after failing and
    deleting what that receive holds, one on the message queue.  The
    messages those two receives hold as their batches are marked failed
    (out of the queue state, last occurrence and expired flag untouched)
    and their entries are deleted; each queue keeps every other entry it
    had, so an entry whose handle is not among those of the first ten of
    its queue is still there when [reset] returns. *)
Theorem reset_single_receive self w :
  let r1 := get_messages "" "Bot" 0 10 self w in
  let d1 :=
    (fail_messages "Unknown Reason" false ;; delete_sqs_msgs)
      (self_of r1) (world_of r1) in
  let r2 := get_messages "" "Message" 0 10 (self_of d1) (world_of d1) in
  let r := reset self w in
  (value_of r = Return tt
   ∧ ∃ b1 b2,
       sqs_msgs (self_of r1) = Some b1
       ∧ sqs_msgs (self_of r2) = Some b2
       ∧ Forall (λ m, m ∈ receive_messages BotQueueName 10 w) b1
       ∧ Forall (λ m, m ∈ receive_messages QueueName 10 w) b2
       ∧ sqs_msgs (self_of r) = Some b2
       ∧ (∀ url,
             entries url (world_of r)
             = filter (λ e, claimed url (b1 ++ b2) e = false)
                 (entries url w))
       ∧ Forall (λ m, in_queue (occurrence_for (world_of r) m) = false
                      ∧ ¬ in_channel (world_of r) m)
           (b1 ++ b2)
       ∧ ∀ uuid person,
           let o := occurrence (occurrences w) uuid person in
           let o' := occurrence (occurrences (world_of r)) uuid person in
           last_occurrence o' = last_occurrence o ∧ expired o' = expired o)
  ∧ ∀ url,
      Forall (λ e, e ∈ entries url (world_of r))
        (filter (λ e, entry_handle e ∉ entry_handle <$> take 10 (entries url w))
           (entries url w)).
Proof.
  cbn zeta. split.
  - destruct (reset_run self w)
      as (v1 & self1 & b1 & v2 & self2 & b2
          & E1 & Hb1 & Hin1 & E2 & Hb2 & Hin2 & Hreset).
    rewrite E1. cbn [self_of world_of fst snd].
    rewrite (fail_then_delete _ _ _ _ Hb1). cbn [self_of world_of fst snd].
    rewrite E2, Hreset. cbn [value_of self_of world_of fst snd].
    split; [done|].
    assert (∀ url,
      entries url
        (delete_pass b1 (delete_pass b1 (fail_pass b1 (fail_pass b1 w))))
      = filter (λ e, claimed url b1 e = false) (entries url w)) as Hfirst.
    { intros url. rewrite !delete_pass_entries, !fail_pass_entries.
      rewrite list_filter_filter. apply list_filter_iff.
      intros e. split; [by intros [? _] | done]. }
    assert (∀ url,
      entries url
        (delete_pass b2 (delete_pass b2 (fail_pass b2 (fail_pass b2
           (delete_pass b1 (delete_pass b1
              (fail_pass b1 (fail_pass b1 w))))))))
      = filter (λ e, claimed url (b1 ++ b2) e = false) (entries url w))
      as Hentries.
    { intros url. rewrite !delete_pass_entries, !fail_pass_entries.
      rewrite Hfirst, !list_filter_filter. apply list_filter_iff.
      intros e. rewrite claimed_app.
      destruct (claimed url b1 e), (claimed url b2 e); cbn;
        intuition congruence. }
    assert (∀ uuid person,
      occurrence
        (occurrences
           (delete_pass b2 (delete_pass b2 (fail_pass b2 (fail_pass b2
              (delete_pass b1 (delete_pass b1
                 (fail_pass b1 (fail_pass b1 w)))))))))
        uuid person
      = let o := occurrence (occurrences w) uuid person in
        if existsb (about uuid person) b1 || existsb (about uuid person) b2
        then {| in_queue := false; last_occurrence := last_occurrence o;
                expired := expired o |}
        else o) as Hocc.
    { intros uuid person.
      rewrite !delete_pass_occurrences, !fail_pass_world_occurrence.
      rewrite !delete_pass_occurrences, !fail_pass_world_occurrence.
      cbn zeta.
      by destruct (existsb (about uuid person) b1),
        (existsb (about uuid person) b2). }
    exists b1, b2.
    split; [done|]. split; [done|]. split; [done|]. split.
    { eapply Forall_impl; [exact Hin2|]. intros m. cbn beta.
      unfold receive_messages. rewrite Hfirst.
      rewrite filter_all; [done|].
      intros e. by eapply (claimed_other_queue BotQueueName QueueName). }
    split; [done|]. split; [exact Hentries|]. split.
    + apply Forall_forall. intros m Hm. split.
      * unfold occurrence_for. rewrite Hocc. cbn zeta.
        apply elem_of_app in Hm as [Hm|Hm];
          rewrite (existsb_about_self _ _ Hm), ?orb_true_r; done.
      * unfold in_channel. rewrite Hentries.
        intros (e & He & [Hc _]%list_elem_of_filter)%list_elem_of_fmap.
        assert (claimed (queue_url m) (b1 ++ b2) e = true) as Hc';
          [|congruence].
        apply existsb_exists. exists m.
        split; [by apply list_elem_of_In|].
        by rewrite !bool_decide_eq_true_2.
    + intros uuid person. rewrite Hocc. cbn zeta. by destruct (_ || _).
  - intros url. apply Forall_forall.
    intros e [Hfresh He]%list_elem_of_filter.
    by apply reset_leaves_backlog.
Qed.

(** * The operations on concrete queues *)

(** The manager of the examples is the one a receive for alice leaves. *)
Lemma holding_hello_reached :
  self_of (get_messages "alice" "Message" 0 10 fresh_manager one_for_alice)
  = holding_hello.
Proof. vm_compute. reflexivity. Qed.

(** The first scenario of the specification on this code: a message for
    alice with no more occurrences is published, received, resolved, and
    the next receive finds nothing.  The pair is out of the queue state
    from the receive on. *)
Lemma publish_receive_resolve :
  let w0 := world_with [] [] ∅ 100 in
  let r1 :=
    (publish_message no_windows "fresh" (hello_request None) ;;
     get_messages "alice" "Message" 0 10) fresh_manager w0 in
  let r2 := succeed_messages false (self_of r1) (world_of r1) in
  let r3 := get_messages "alice" "Message" 0 10 (self_of r2) (world_of r2) in
  (∃ e, queue (world_of r1) = [e]
        ∧ value_of r1
          = Return (Some [QueuedMessage_of (message_of QueueName e)]))
  ∧ occurrence (occurrences (world_of r1)) "u1" "alice"
    = {| in_queue := false; last_occurrence := None; expired := false |}
  ∧ occurrence (occurrences (world_of r2)) "u1" "alice"
    = {| in_queue := false; last_occurrence := Some 100; expired := true |}
  ∧ queue (world_of r2) = []
  ∧ value_of r3 = Return None.
Proof.
  cbn zeta. split; [eexists; split; vm_compute; reflexivity|].
  repeat split; vm_compute; reflexivity.
Qed.

(** C1, counterexample.  The scheduler has the pair (u1, alice) in queue;
    [get_messages] fetches its message for alice, and when the call
    returns the pair is not in queue. *)
Lemma get_messages_in_queue_counterexample :
  let m := message_of QueueName hello_alice in
  let r := get_messages "alice" "Message" 0 10 fresh_manager one_for_alice in
  receive_messages QueueName 10 one_for_alice = [m]
  ∧ matches_filter "alice" m = true
  ∧ in_queue (occurrence_for one_for_alice m) = true
  ∧ sqs_msgs (self_of r) = Some [m]
  ∧ in_queue (occurrence_for (world_of r) m) = false.
Proof. repeat split; vm_compute; reflexivity. Qed.

(** C2.  Two messages for alice are fetched and both pass the filter;
    the call returns the first one alone, and the second one is neither
    returned nor held. *)
Theorem get_messages_returns_first_match_only :
  let m1 := message_of QueueName hello_alice in
  let m2 := message_of QueueName again_alice in
  let r := get_messages "alice" "Message" 0 10 fresh_manager two_for_alice in
  receive_messages QueueName 10 two_for_alice = [m1; m2]
  ∧ matches_filter "alice" m1 = true
  ∧ matches_filter "alice" m2 = true
  ∧ value_of r = Return (Some [QueuedMessage_of m1])
  ∧ messages (self_of r) !! "alice" = Some [QueuedMessage_of m1]
  ∧ sqs_msgs (self_of r) = Some [m1].
Proof. repeat split; vm_compute; reflexivity. Qed.

(** C7.  The first receive fetches [hello_alice], which is then resolved
    and deleted; the second receive fetches [again_alice] alone, and the
    group of alice still holds the message of the first call in front of
    it. *)
Theorem get_messages_keeps_earlier_groups :
  let m1 := message_of QueueName hello_alice in
  let m2 := message_of QueueName again_alice in
  let r1 :=
    (get_messages "alice" "Message" 0 10 ;; succeed_messages false)
      fresh_manager two_for_alice in
  let r2 :=
    get_messages "alice" "Message" 0 10 (self_of r1) (world_of r1) in
  queue (world_of r1) = [again_alice]
  ∧ value_of r2 = Return (Some [QueuedMessage_of m2])
  ∧ sqs_msgs (self_of r2) = Some [m2]
  ∧ messages (self_of r2) !! "alice"
    = Some [QueuedMessage_of m1; QueuedMessage_of m2].
Proof. repeat split; vm_compute; reflexivity. Qed.

(** C3, counterexample.  The batch holds a message with no more
    occurrences; after [succeed_messages] with [DontDelete] true its pair
    has no last occurrence and is not expired. *)
Lemma succeed_messages_dont_delete_counterexample :
  let m := message_of QueueName hello_alice in
  let r :=
    (get_messages "alice" "Message" 0 10 ;; succeed_messages true)
      fresh_manager one_for_alice in
  value_of r = Return tt
  ∧ sqs_msgs (self_of r) = Some [m]
  ∧ NoMoreOccurrences (message_attributes m) = true
  ∧ last_occurrence (occurrence_for (world_of r) m) = None
  ∧ expired (occurrence_for (world_of r) m) = false.
Proof. repeat split; vm_compute; reflexivity. Qed.

(** C4, counterexample.  The batch is resolved at time 100 and again at
    time 200: the second call returns, and the last occurrence moves from
    100 to 200. *)
Lemma succeed_messages_twice_counterexample :
  let m := message_of QueueName hello_alice in
  let r1 :=
    (get_messages "alice" "Message" 0 10 ;; succeed_messages false)
      fresh_manager one_for_alice in
  let r2 :=
    succeed_messages false (self_of r1) (at_time 200 (world_of r1)) in
  value_of r1 = Return tt
  ∧ sqs_msgs (self_of r1) = Some [m]
  ∧ last_occurrence (occurrence_for (world_of r1) m) = Some 100
  ∧ value_of r2 = Return tt
  ∧ last_occurrence (occurrence_for (world_of r2) m) = Some 200.
Proof. repeat split; vm_compute; reflexivity. Qed.

(** C5, counterexample.  While the batch is pending the scheduler queues
    the next occurrence of the pair (u1, alice); [fail_messages] with
    [DontDelete] true then leaves the pair in queue. *)
Lemma fail_messages_dont_delete_counterexample :
  let m := message_of QueueName hello_alice in
  let r0 := get_messages "alice" "Message" 0 10 fresh_manager one_for_alice in
  let w := with_occurrences
             (Scheduler.update_queue_status "u1" "alice" true)
             (world_of r0) in
  let r := fail_messages "Speech failed" true (self_of r0) w in
  value_of r = Return tt
  ∧ sqs_msgs (self_of r) = Some [m]
  ∧ in_queue (occurrence_for w m) = true
  ∧ in_queue (occurrence_for (world_of r) m) = true.
Proof. repeat split; vm_compute; reflexivity. Qed.

(** C6.  The group of alice holds a message that is not expired, with
    the voice Joanna, and after it an expired one with the voice Brian:
    the speech has the first message alone and comes with the voice of
    the expired one.  And when the manager holds a group for bob only, a
    speech for alice raises [KeyError]. *)
Theorem write_speech_voice_and_missing_group :
  let r1 :=
    (get_messages "alice" "Message" 0 10 ;; succeed_messages false)
      fresh_manager two_for_alice in
  let r2 := write_speech no_tokens false "alice" (self_of r1) (world_of r1) in
  let r3 :=
    (get_messages "" "Message" 0 10 ;; write_speech no_tokens false "alice")
      fresh_manager one_for_bob in
  messages (self_of r2) !! "alice"
  = Some [QueuedMessage_of (message_of QueueName hello_alice);
          QueuedMessage_of (message_of QueueName again_alice)]
  ∧ is_expired 100 (QueuedMessage_of (message_of QueueName hello_alice))
    = false
  ∧ is_expired 100 (QueuedMessage_of (message_of QueueName again_alice))
    = true
  ∧ value_of r2 = Return (Some "Brian", Some "<speak><p>Hello</p></speak>")
  ∧ value_of r3 = Raise (KeyError "alice").
Proof. repeat split; vm_compute; reflexivity. Qed.

(** C10, counterexample.  The message queue holds eleven entries; after
    [reset] it is not empty. *)
Lemma reset_counterexample :
  let r := reset fresh_manager stale_queue in
  length (queue stale_queue) = 11%nat
  ∧ value_of r = Return tt
  ∧ queue (world_of r) ≠ [].
Proof.
  cbn zeta. split; [reflexivity|]. split; [vm_compute; reflexivity|].
  vm_compute. discriminate.
Qed.

(** The batch [hello_alice] resolved at time 100 and again at time 200. *)
Lemma succeed_messages_twice_witness :
  sqs_msgs holding_hello = Some [message_of QueueName hello_alice]
  ∧ let r1 := succeed_messages false holding_hello one_for_alice in
    let r2 :=
      succeed_messages false (self_of r1) (at_time 200 (world_of r1)) in
    value_of r1 = Return tt ∧ value_of r2 = Return tt
    ∧ Forall (λ m,
          let o1 := occurrence_for (world_of r1) m in
          let o2 := occurrence_for (world_of r2) m in
          last_occurrence o1 = Some (utcnow one_for_alice)
          ∧ last_occurrence o2 = Some 200
          ∧ in_queue o2 = false
          ∧ expired o2 = expired o1) [message_of QueueName hello_alice].
Proof.
  split; [reflexivity|].
  apply (succeed_messages_twice holding_hello one_for_alice
           [message_of QueueName hello_alice] 200).
  reflexivity.
Defined.

(** The batch [hello_alice] failed with deletion. *)
Lemma fail_messages_outcome_witness :
  sqs_msgs holding_hello = Some [message_of QueueName hello_alice]
  ∧ let r := fail_messages "Speech failed" false holding_hello one_for_alice in
    value_of r = Return tt
    ∧ Forall (λ m, in_queue (occurrence_for (world_of r) m) = false)
        [message_of QueueName hello_alice]
    ∧ ∀ uuid person,
        let o := occurrence (occurrences one_for_alice) uuid person in
        let o' := occurrence (occurrences (world_of r)) uuid person in
        last_occurrence o' = last_occurrence o ∧ expired o' = expired o.
Proof.
  split; [reflexivity|].
  apply (fail_messages_outcome "Speech failed" false holding_hello
           one_for_alice [message_of QueueName hello_alice]).
  reflexivity.
Defined.

(** A request for alice without bot names, published to empty queues. *)
Lemma publish_message_routes_witness :
  let kwargs := hello_request None in
  let w := world_with [] [] ∅ 100 in
  (truthy (default "" (Kw.PersonName kwargs)) = true
   ∧ truthy (default "fresh" (Kw.UUID kwargs)) = true
   ∧ truthy (default "" (Kw.Body kwargs)) = true
   ∧ Kw.unexpected kwargs = [])
  ∧ let r := publish_message no_windows "fresh" kwargs fresh_manager w in
    value_of r = Return tt
    ∧ ∃ e,
        entry_body e = "Hello"
        ∧ PersonName (entry_attributes e) = "alice"
        ∧ UUID (entry_attributes e) = "u1"
        ∧ queue (world_of r) = queue w ++ [e]
        ∧ bot_queue (world_of r) = bot_queue w.
Proof.
  split; [repeat split|].
  apply (publish_message_routes no_windows "fresh" (hello_request None)
           fresh_manager (world_with [] [] ∅ 100));
    reflexivity.
Defined.

(** * Further properties of the module *)

(** ** receive *)

Lemma matches_filter_person person_name m :
  truthy person_name = true →
  matches_filter person_name m = true →
  PersonName (message_attributes m) = person_name.
Proof.
  intros Hp. unfold matches_filter, eqb_str. rewrite Hp. cbn.
  rewrite negb_involutive. apply bool_decide_eq_true.
Qed.

Lemma matches_no_filter m : matches_filter "" m = true.
Proof. reflexivity. Qed.

(** With a person given, [get_messages] returns and holds messages of
    that person only, and it leaves the groups and the Occurrence State
    of every other person as they are. *)
Theorem get_messages_only_for_person
    person_name message_type wait max self w :
  truthy person_name = true →
  let r := get_messages person_name message_type wait max self w in
  match value_of r with
  | Return (Some msgs) =>
      Forall (λ qm, QueuedMessage.person_name qm = person_name) msgs
  | _ => True
  end
  ∧ (∃ batch, sqs_msgs (self_of r) = Some batch
       ∧ Forall (λ m, PersonName (message_attributes m) = person_name) batch)
  ∧ (∀ p, p ≠ person_name → messages (self_of r) !! p = messages self !! p)
  ∧ ∀ uuid p, p ≠ person_name →
      occurrence (occurrences (world_of r)) uuid p
      = occurrence (occurrences w) uuid p.
Proof.
  intros Hp. cbn zeta. rewrite get_messages_run.
  destruct (find _ _) as [m|] eqn:Hfind;
    cbn [value_of self_of world_of fst snd].
  - apply find_some in Hfind as [_ Hm].
    pose proof (matches_filter_person _ _ Hp Hm) as Hperson.
    split; [by apply Forall_singleton|]. split.
    { exists [m]. split; [done | by apply Forall_singleton]. }
    split.
    + intros p Hne. cbn. rewrite lookup_insert_ne; [done | congruence].
    + intros uuid p Hne. cbn. rewrite fail_one_occurrence. cbn zeta.
      destruct (about uuid p m) eqn:Ha; [|done].
      apply about_true in Ha. congruence.
  - split; [done|]. split; [|done].
    exists []. split; [done | by apply Forall_nil].
Qed.

(** When the queue is empty, or no fetched message is for the person,
    [get_messages] returns [None] with an empty batch, and neither the
    groups nor the world change. *)
Theorem get_messages_nothing_kept
    person_name message_type wait max self w :
  Forall (λ m, matches_filter person_name m = false)
    (receive_messages (url_for message_type) max w) →
  let r := get_messages person_name message_type wait max self w in
  value_of r = Return None
  ∧ sqs_msgs (self_of r) = Some []
  ∧ messages (self_of r) = messages self
  ∧ world_of r = w.
Proof.
  intros Hnone. cbn zeta. rewrite get_messages_run.
  destruct (find _ _) as [m|] eqn:Hfind; [|done].
  apply find_some in Hfind as [Hin Hm].
  apply list_elem_of_In in Hin.
  pose proof (proj1 (Forall_forall _ _) Hnone m Hin). congruence.
Qed.

(** [get_messages] deletes nothing: both queues and the clock are as
    before.  What it holds comes from the message queue for the type
    ["Message"] and from the bot queue for every other type, and what it
    returns is the Message Record of what it holds. *)
Theorem get_messages_leaves_queues
    person_name message_type wait max self w :
  let r := get_messages person_name message_type wait max self w in
  (∀ url, entries url (world_of r) = entries url w)
  ∧ utcnow (world_of r) = utcnow w
  ∧ ∃ batch,
      sqs_msgs (self_of r) = Some batch
      ∧ Forall (λ m, queue_url m
                     = if decide (message_type = "Message")
                       then QueueName else BotQueueName) batch
      ∧ value_of r
        = Return (match batch with
                  | [] => None
                  | _ => Some (QueuedMessage_of <$> batch)
                  end).
Proof.
  cbn zeta. rewrite get_messages_run.
  destruct (find _ _) as [m|] eqn:Hfind;
    cbn [value_of self_of world_of fst snd].
  - split; [by intros []|]. split; [done|].
    exists [m]. split; [done|]. split; [|done].
    apply Forall_singleton.
    apply find_some in Hfind as [Hin _].
    apply list_elem_of_In in Hin. unfold receive_messages in Hin.
    apply list_elem_of_fmap in Hin as (e & -> & _). cbn.
    unfold url_for, eqb_str. case_bool_decide; case_decide; done.
  - split; [done|]. split; [done|].
    exists []. split; [done|]. split; [by apply Forall_nil | done].
Qed.

(** [get_messages] keeps the first fetched message that passes the
    filter and no other: that message alone is returned and held as the
    batch, and when no fetched message passes the result is [None] and
    the batch is empty. *)
Theorem get_messages_first_match person_name message_type wait max self w :
  let r := get_messages person_name message_type wait max self w in
  let first :=
    List.find (matches_filter person_name)
      (receive_messages (url_for message_type) max w) in
  value_of r = Return ((λ m, [QueuedMessage_of m]) <$> first)
  ∧ sqs_msgs (self_of r) = Some (option_list first)
  ∧ world_of r = fail_pass (option_list first) w.
Proof.
  cbn zeta. rewrite get_messages_run.
  destruct (find _ _) as [m|]; [done|]. by destruct w.
Qed.

(** ** Outcome resolution *)

(** Before the first [get_messages] the attribute [sqs_msgs] does not
    exist: the three methods that read it raise [AttributeError] and
    change nothing, unless [DontDelete] makes them return first. *)
Theorem resolve_without_batch reason self w :
  sqs_msgs self = None →
  succeed_messages false self w = (Raise (AttributeError "sqs_msgs"), self, w)
  ∧ fail_messages reason false self w
    = (Raise (AttributeError "sqs_msgs"), self, w)
  ∧ delete_sqs_msgs self w = (Raise (AttributeError "sqs_msgs"), self, w)
  ∧ succeed_messages true self w = (Return tt, self, w)
  ∧ fail_messages reason true self w = (Return tt, self, w).
Proof.
  intros Hb. unfold succeed_messages, fail_messages, delete_sqs_msgs.
  run. by rewrite Hb.
Qed.

Lemma world_eq w w' :
  queue w = queue w' → bot_queue w = bot_queue w' →
  next_handle w = next_handle w' → occurrences w = occurrences w' →
  utcnow w = utcnow w' → w = w'.
Proof. destruct w, w'. cbn. by intros -> -> -> -> ->. Qed.

Lemma delete_pass_next_handle batch w :
  next_handle (delete_pass batch w) = next_handle w.
Proof.
  revert w. induction batch as [|m batch IH]; intros w; [done|].
  unfold delete_pass in *. cbn [fold_left]. rewrite IH.
  unfold delete_one, delete_message. by destruct (queue_url m).
Qed.

Lemma succeed_pass_entries url batch w :
  entries url (succeed_pass batch w) = entries url w.
Proof. by destruct url. Qed.

Lemma filter_twice {A} (P : A → Prop) `{!∀ x, Decision (P x)} (l : list A) :
  filter P (filter P l) = filter P l.
Proof. apply list_filter_filter_l. auto. Qed.

(** Deleting the batch a second time changes nothing. *)
Lemma delete_pass_twice batch w :
  delete_pass batch (delete_pass batch w) = delete_pass batch w.
Proof.
  assert (∀ url, entries url (delete_pass batch (delete_pass batch w))
                 = entries url (delete_pass batch w)) as Hentries.
  { intros url. by rewrite !delete_pass_entries, filter_twice. }
  apply world_eq.
  - apply (Hentries QueueName).
  - apply (Hentries BotQueueName).
  - by rewrite !delete_pass_next_handle.
  - by rewrite !delete_pass_occurrences.
  - by rewrite !delete_pass_utcnow.
Qed.

(** [fail_messages] has deleted the entries of the batch when it
    returns, so that the [delete_sqs_msgs] that follows it in [reset]
    finds nothing left to delete: [reset] is two rounds of receive and
    fail. *)
Theorem reset_deletes_once self w :
  reset self w
  = (get_messages "" "Bot" 0 10 ;;
     fail_messages "Unknown Reason" false ;;
     get_messages "" "Message" 0 10 ;;
     fail_messages "Unknown Reason" false) self w.
Proof.
  destruct (reset_run self w)
    as (v1 & self1 & b1 & v2 & self2 & b2
        & E1 & Hb1 & _ & E2 & Hb2 & _ & Hreset).
  rewrite !delete_pass_twice in E2, Hreset.
  rewrite Hreset, bind_run, E1, bind_run, (fail_messages_run _ _ _ _ Hb1).
  rewrite bind_run, E2, (fail_messages_run _ _ _ _ Hb2).
  by rewrite (delete_pass_twice b1).
Qed.

(** With [DontDelete] unset, [succeed_messages] keeps the instance as it
    is (the batch stays held), leaves the Occurrence State of every pair
    that no message of the batch is about untouched, and removes from the
    queues the entries of the batch and no other entry. *)
Theorem succeed_messages_frame self w batch :
  sqs_msgs self = Some batch →
  let r := succeed_messages false self w in
  self_of r = self
  ∧ (∀ uuid person,
        existsb (about uuid person) batch = false →
        occurrence (occurrences (world_of r)) uuid person
        = occurrence (occurrences w) uuid person)
  ∧ ∀ url,
      entries url (world_of r)
      = filter (λ e, claimed url batch e = false) (entries url w).
Proof.
  intros Hb. cbn zeta. rewrite (succeed_messages_run _ _ _ Hb).
  cbn [self_of world_of fst snd]. split; [done|]. split.
  - intros uuid person Hnot. rewrite delete_pass_occurrences.
    cbn [succeed_pass with_occurrences occurrences].
    rewrite succeed_pass_occurrence. cbn zeta. by rewrite Hnot.
  - intros url. by rewrite delete_pass_entries, succeed_pass_entries.
Qed.

(** With [DontDelete] unset, [fail_messages] keeps the instance as it is,
    removes from the queues the entries of the batch and no other entry,
    and changes the Occurrence State of no pair outside the batch. *)
Theorem fail_messages_frame reason self w batch :
  sqs_msgs self = Some batch →
  let r := fail_messages reason false self w in
  self_of r = self
  ∧ (∀ uuid person,
        existsb (about uuid person) batch = false →
        occurrence (occurrences (world_of r)) uuid person
        = occurrence (occurrences w) uuid person)
  ∧ ∀ url,
      entries url (world_of r)
      = filter (λ e, claimed url batch e = false) (entries url w).
Proof.
  intros Hb. cbn zeta. rewrite (fail_messages_run _ _ _ _ Hb).
  cbn [self_of world_of fst snd]. split; [done|]. split.
  - intros uuid person Hnot. rewrite delete_pass_occurrences.
    rewrite fail_pass_world_occurrence. cbn zeta. by rewrite Hnot.
  - intros url. by rewrite delete_pass_entries, fail_pass_entries.
Qed.

Lemma occurrence_of_lookup (st : OccurrenceStore) uuid person o :
  st !! (uuid, person) = Some o → occurrence st uuid person = o.
Proof. unfold occurrence. by intros ->. Qed.

Lemma fail_one_lookup m st uuid person :
  fail_one m st !! (uuid, person)
  = if about uuid person m
    then Some (occurrence (fail_one m st) uuid person)
    else st !! (uuid, person).
Proof.
  destruct (about uuid person m) eqn:Ha.
  - apply about_true in Ha. unfold occurrence, fail_one,
      Scheduler.update_queue_status. rewrite Ha.
    by rewrite lookup_insert_eq.
  - unfold fail_one, Scheduler.update_queue_status.
    rewrite lookup_insert_ne; [done|].
    intros Hk. apply about_true in Hk. congruence.
Qed.

Lemma succeed_one_lookup now m st uuid person :
  succeed_one now m st !! (uuid, person)
  = if about uuid person m
    then Some (occurrence (succeed_one now m st) uuid person)
    else st !! (uuid, person).
Proof.
  destruct (about uuid person m) eqn:Ha.
  - apply about_true in Ha. unfold occurrence, succeed_one,
      Scheduler.set_expired, Scheduler.update_queue_status,
      Scheduler.update_last_occurrence.
    cbn zeta. rewrite Ha.
    destruct (NoMoreOccurrences (message_attributes m));
      by rewrite !lookup_insert_eq.
  - unfold succeed_one, Scheduler.set_expired,
      Scheduler.update_queue_status, Scheduler.update_last_occurrence.
    cbn zeta.
    assert ((UUID (message_attributes m), PersonName (message_attributes m))
            ≠ (uuid, person)) as Hne.
    { intros Hk. apply about_true in Hk. congruence. }
    destruct (NoMoreOccurrences (message_attributes m));
      by rewrite !lookup_insert_ne.
Qed.

(** A pass over the batch leaves in the store, for every pair a message
    is about, the record that [occurrence] reads. *)
Lemma pass_lookup (step : SqsMessage → OccurrenceStore → OccurrenceStore)
    batch st uuid person :
  (∀ m st,
      step m st !! (uuid, person)
      = if about uuid person m
        then Some (occurrence (step m st) uuid person)
        else st !! (uuid, person)) →
  fold_left (λ st m, step m st) batch st !! (uuid, person)
  = if existsb (about uuid person) batch
    then Some (occurrence (fold_left (λ st m, step m st) batch st)
                 uuid person)
    else st !! (uuid, person).
Proof.
  intros Hstep. revert st.
  induction batch as [|m batch IH]; intros st; [done|].
  cbn [fold_left existsb]. rewrite IH.
  destruct (existsb (about uuid person) batch) eqn:Hb;
    [by rewrite orb_true_r|].
  rewrite orb_false_r, Hstep.
  destruct (about uuid person m); [|done].
  f_equal. unfold occurrence. by rewrite IH, ?Hb.
Qed.

Lemma fail_pass_twice (batch : list SqsMessage) (st : OccurrenceStore) :
  fold_left (λ st m, fail_one m st) batch
    (fold_left (λ st m, fail_one m st) batch st)
  = fold_left (λ st m, fail_one m st) batch st.
Proof.
  apply map_eq. intros [uuid person].
  rewrite (pass_lookup fail_one) by (intros; apply fail_one_lookup).
  destruct (existsb (about uuid person) batch) eqn:Hb; [|done].
  rewrite (pass_lookup fail_one _ st) by (intros; apply fail_one_lookup).
  rewrite Hb. f_equal. rewrite !fail_pass_occurrence. cbn zeta.
  by rewrite Hb.
Qed.

Lemma succeed_pass_twice (now : Z) (batch : list SqsMessage)
    (st : OccurrenceStore) :
  fold_left (λ st m, succeed_one now m st) batch
    (fold_left (λ st m, succeed_one now m st) batch st)
  = fold_left (λ st m, succeed_one now m st) batch st.
Proof.
  apply map_eq. intros [uuid person].
  rewrite (pass_lookup (succeed_one now))
    by (intros; apply succeed_one_lookup).
  destruct (existsb (about uuid person) batch) eqn:Hb; [|done].
  rewrite (pass_lookup (succeed_one now) _ st)
    by (intros; apply succeed_one_lookup).
  rewrite Hb. f_equal. rewrite !succeed_pass_occurrence. cbn zeta.
  rewrite Hb. cbn. by rewrite <- orb_assoc, orb_diag.
Qed.

(** [fail_messages] is idempotent: a second call on the batch it still
    holds returns and changes nothing. *)
Theorem fail_messages_twice reason self w batch :
  sqs_msgs self = Some batch →
  let r := fail_messages reason false self w in
  fail_messages reason false (self_of r) (world_of r) = r.
Proof.
  intros Hb. cbn zeta. rewrite (fail_messages_run _ _ _ _ Hb).
  cbn [self_of world_of fst snd]. rewrite (fail_messages_run _ _ _ _ Hb).
  f_equal.
  assert (∀ url,
    entries url
      (delete_pass batch (fail_pass batch (delete_pass batch (fail_pass batch w))))
    = entries url (delete_pass batch (fail_pass batch w))) as Hentries.
  { intros url.
    by rewrite !delete_pass_entries, !fail_pass_entries, delete_pass_entries,
      fail_pass_entries, filter_twice. }
  apply world_eq.
  - apply (Hentries QueueName).
  - apply (Hentries BotQueueName).
  - by rewrite !delete_pass_next_handle; cbn; rewrite delete_pass_next_handle.
  - rewrite !delete_pass_occurrences. cbn.
    rewrite delete_pass_occurrences. cbn. apply fail_pass_twice.
  - by rewrite !delete_pass_utcnow; cbn; rewrite delete_pass_utcnow.
Qed.

(** While the clock reads the same, [succeed_messages] is idempotent: a
    second call on the batch it still holds returns and changes
    nothing. *)
Theorem succeed_messages_same_clock self w batch :
  sqs_msgs self = Some batch →
  let r := succeed_messages false self w in
  succeed_messages false (self_of r) (world_of r) = r.
Proof.
  intros Hb. cbn zeta. rewrite (succeed_messages_run _ _ _ Hb).
  cbn [self_of world_of fst snd]. rewrite (succeed_messages_run _ _ _ Hb).
  f_equal.
  assert (∀ url,
    entries url
      (delete_pass batch
         (succeed_pass batch (delete_pass batch (succeed_pass batch w))))
    = entries url (delete_pass batch (succeed_pass batch w))) as Hentries.
  { intros url.
    by rewrite !delete_pass_entries, !succeed_pass_entries,
      delete_pass_entries, succeed_pass_entries, filter_twice. }
  apply world_eq.
  - apply (Hentries QueueName).
  - apply (Hentries BotQueueName).
  - by rewrite !delete_pass_next_handle; cbn; rewrite delete_pass_next_handle.
  - rewrite !delete_pass_occurrences. cbn.
    rewrite delete_pass_occurrences, delete_pass_utcnow. cbn.
    apply succeed_pass_twice.
  - by rewrite !delete_pass_utcnow; cbn; rewrite delete_pass_utcnow.
Qed.

(** ** composeSpeech *)

(** The text the loop of [write_speech] builds is [<speak>] followed by
    one paragraph per message that is not expired, in the order of the
    group. *)
Theorem speech_text now group :
  fold_left (speak_one now) group "<speak>"
  = "<speak>"
    +:+ String.concat ""
          ((λ m, "<p>" +:+ body m +:+ "</p>")
             <$> filter (λ m, is_expired now m = false) group).
Proof.
  rewrite speak_all. f_equal.
  induction group as [|m group IH]; [done|].
  cbn [paragraphs foldr]. fold (paragraphs now group). rewrite IH.
  destruct (is_expired now m) eqn:Hexp.
  - by rewrite filter_cons_False by (rewrite Hexp; done).
  - rewrite filter_cons_True by done. cbn [fmap list_fmap String.concat].
    destruct (_ <$> filter _ group) as [|s l] eqn:Hrest.
    + cbn [String.concat]. by rewrite !append_empty_r.
    + by rewrite !append_assoc.
Qed.

Section SpeechOnce.

Variable replace_tokens : string → string → string.

(** [write_speech] leaves the world as its receive leaves it: it deletes
    no entry and resolves nothing. *)
Lemma write_speech_world dont_delete person_name self w :
  world_of (write_speech replace_tokens dont_delete person_name self w)
  = world_of (get_messages person_name "Message" 0 10 self w)
  ∧ self_of (write_speech replace_tokens dont_delete person_name self w)
    = self_of (get_messages person_name "Message" 0 10 self w).
Proof.
  pose proof (write_speech_run replace_tokens dont_delete person_name self w)
    as Hrun. cbn zeta in Hrun. rewrite Hrun.
  case_decide; [done|].
  destruct (messages _ !! person_name) as [group|]; [|done].
  destruct (forallb _ group); [done|]. by destruct (last group).
Qed.

(** A manager that is used once, with a person given, never raises in
    [write_speech]: the result is decided by the first fetched message
    for the person.  There is no speech when there is no such message or
    when it is expired; otherwise the speech is its body in one paragraph
    and the voice is its voice. *)
Theorem write_speech_once dont_delete person_name w :
  truthy person_name = true →
  value_of
    (write_speech replace_tokens dont_delete person_name fresh_manager w)
  = match List.find (matches_filter person_name)
            (receive_messages QueueName 10 w) with
    | None => Return (None, None)
    | Some m =>
        if is_expired (utcnow w) (QueuedMessage_of m)
        then Return (None, None)
        else Return
               (Some (Voice (message_attributes m)),
                Some (replace_tokens person_name
                        ("<speak><p>" +:+ sqs_body m +:+ "</p></speak>")))
    end.
Proof.
  intros Hp.
  pose proof (write_speech_run replace_tokens dont_delete person_name
                fresh_manager w) as Hrun.
  cbn zeta in Hrun. rewrite Hrun, get_messages_run.
  change (url_for "Message") with QueueName.
  destruct (find _ _) as [m|] eqn:Hfind; [|done].
  apply find_some in Hfind as [_ Hm].
  pose proof (matches_filter_person _ _ Hp Hm) as Hperson.
  cbn [self_of world_of fst snd keep reset_batch fresh_manager messages].
  change (QueuedMessage.person_name (QueuedMessage_of m))
    with (PersonName (message_attributes m)).
  rewrite lookup_empty, Hperson.
  rewrite decide_False
    by (rewrite map_size_insert_None by apply lookup_empty; done).
  rewrite lookup_insert_eq. cbn [app forallb with_occurrences utcnow].
  rewrite andb_true_r.
  destruct (is_expired (utcnow w) (QueuedMessage_of m)) eqn:He; [done|].
  cbn [last value_of fst]. unfold paragraphs. cbn [foldr]. rewrite He.
  rewrite append_empty_r, !append_assoc. reflexivity.
Qed.

(** Without a person name [write_speech] fetches the first message of
    the queue, whoever it is for, files it under the name of its person
    and then looks up the group of the empty name: on a fresh manager it
    raises [KeyError] as soon as the queue has a message for a named
    person. *)
Theorem write_speech_without_person dont_delete w e rest :
  queue w = e :: rest →
  PersonName (entry_attributes e) ≠ "" →
  value_of (write_speech replace_tokens dont_delete "" fresh_manager w)
  = Raise (KeyError "").
Proof.
  intros Hq Hname.
  pose proof (write_speech_run replace_tokens dont_delete ""
                fresh_manager w) as Hrun.
  cbn zeta in Hrun. rewrite Hrun, get_messages_run.
  change (url_for "Message") with QueueName.
  unfold receive_messages. cbn [entries]. rewrite Hq.
  cbn [take fmap list_fmap find matches_filter truthy andb negb].
  cbn [self_of world_of fst snd keep reset_batch fresh_manager messages
       QueuedMessage_of QueuedMessage.person_name message_of
       message_attributes].
  rewrite lookup_empty.
  rewrite decide_False
    by (rewrite map_size_insert_None by apply lookup_empty; done).
  by rewrite lookup_insert_ne, lookup_empty.
Qed.

End SpeechOnce.

(** ** publish *)

Section PublishMore.

Variable time_windows_json : string → string.

(** [publish_message] checks the person, then the uuid, then the body,
    and only then the keywords it does not know, which raise [TypeError];
    the first check that fails decides the error.  A request that is
    refused leaves the world as it is, and no request touches the
    instance, the Occurrence State or the clock: a published record is
    not marked in queue by this method. *)
Theorem publish_message_accepts uuid4 kwargs self w :
  let r := publish_message time_windows_json uuid4 kwargs self w in
  value_of r
  = (if negb (truthy (default "" (Kw.PersonName kwargs)))
     then Raise (ValueError "No person provided")
     else if negb (truthy (default uuid4 (Kw.UUID kwargs)))
     then Raise (ValueError "No uuid provided")
     else if negb (truthy (default "" (Kw.Body kwargs)))
     then Raise (ValueError "No message body provided")
     else match Kw.unexpected kwargs with
          | [] => Return tt
          | _ => Raise (TypeError (Kw.unexpected kwargs))
          end)
  ∧ match value_of r with
    | Return _ => True
    | Raise _ => world_of r = w
    end
  ∧ self_of r = self
  ∧ occurrences (world_of r) = occurrences w
  ∧ utcnow (world_of r) = utcnow w.
Proof.
  cbn zeta. unfold publish_message.
  destruct (negb (truthy (default "" (Kw.PersonName kwargs)))); [done|].
  destruct (negb (truthy (default uuid4 (Kw.UUID kwargs)))); [done|].
  destruct (negb (truthy (default "" (Kw.Body kwargs)))); [done|].
  destruct (Kw.unexpected kwargs); [|done].
  by destruct (truthy_opt (Kw.BotNames kwargs)).
Qed.

(** Round trip.  A request that passes the checks and is published to
    an empty queue comes back from the next receive on that queue, for
    the person of the request, as the Message Record of the request: its
    person, uuid and body, and the defaults for what the request leaves
    out (voice Joanna, the far future as expiration, more occurrences to
    come). *)
Theorem publish_then_receive uuid4 kwargs self w :
  truthy (default "" (Kw.PersonName kwargs)) = true →
  truthy (default uuid4 (Kw.UUID kwargs)) = true →
  truthy (default "" (Kw.Body kwargs)) = true →
  Kw.unexpected kwargs = [] →
  entries (if truthy_opt (Kw.BotNames kwargs)
           then BotQueueName else QueueName) w = [] →
  value_of
    ((publish_message time_windows_json uuid4 kwargs ;;
      get_messages (default "" (Kw.PersonName kwargs))
        (if truthy_opt (Kw.BotNames kwargs) then "Bot" else "Message")
        0 10) self w)
  = Return (Some [requested uuid4 kwargs]).
Proof.
  intros Hperson Huuid Hbody Hrest Hempty.
  rewrite bind_run. unfold publish_message.
  rewrite Hperson, Huuid, Hbody, Hrest. cbn [negb].
  destruct (truthy_opt (Kw.BotNames kwargs));
    cbn [modify_world]; rewrite get_messages_run;
    unfold receive_messages, send_message; cbn [entries] in Hempty |- *;
    rewrite Hempty;
    change (url_for "Bot") with BotQueueName;
    change (url_for "Message") with QueueName;
    cbn [entries with_entries queue bot_queue app take fmap list_fmap find];
    unfold matches_filter, eqb_str;
    cbn [message_of message_attributes PersonName];
    rewrite bool_decide_eq_true_2 by done;
    rewrite andb_false_r; reflexivity.
Qed.

(** [publish_message] keeps the queues routed: whatever the request and
    whether it is accepted or not, the message queue holds no entry that
    names bots and the bot queue holds only entries that do. *)
Theorem publish_message_keeps_routed uuid4 kwargs self w :
  routed w →
  routed (world_of (publish_message time_windows_json uuid4 kwargs self w)).
Proof.
  intros [Hq Hb]. unfold publish_message.
  destruct (negb (truthy (default "" (Kw.PersonName kwargs)))); [done|].
  destruct (negb (truthy (default uuid4 (Kw.UUID kwargs)))); [done|].
  destruct (negb (truthy (default "" (Kw.Body kwargs)))); [done|].
  destruct (Kw.unexpected kwargs); [|done].
  destruct (truthy_opt (Kw.BotNames kwargs)) eqn:Hbots;
    cbn [world_of snd modify_world send_message]; split; cbn; try done.
  - apply Forall_app. split; [done|]. by apply Forall_singleton.
  - apply Forall_app. split; [done|]. by apply Forall_singleton.
Qed.

End PublishMore.

(** ** The routing invariant under receive, resolution and reset *)

Lemma routed_filter (w w' : World) (keep : QueueUrl → Entry → Prop)
    `{!∀ url e, Decision (keep url e)} :
  (∀ url, entries url w' = filter (keep url) (entries url w)) →
  routed w → routed w'.
Proof.
  intros Hentries [Hq Hb]. split.
  - change (queue w') with (entries QueueName w'). rewrite Hentries.
    apply Forall_forall. intros e [_ He]%list_elem_of_filter.
    by apply (proj1 (Forall_forall _ _) Hq).
  - change (bot_queue w') with (entries BotQueueName w'). rewrite Hentries.
    apply Forall_forall. intros e [_ He]%list_elem_of_filter.
    by apply (proj1 (Forall_forall _ _) Hb).
Qed.

Lemma get_messages_entries person_name message_type wait max self w url :
  entries url (world_of (get_messages person_name message_type wait max self w))
  = entries url w.
Proof.
  rewrite get_messages_run. destruct (find _ _); [by destruct url | done].
Qed.

Lemma filter_nothing_claimed url (l : list Entry) :
  l = filter (λ e, claimed url [] e = false) l.
Proof. symmetry. by apply filter_all. Qed.

Lemma succeed_messages_entries dont_delete self w :
  ∃ batch, ∀ url,
    entries url (world_of (succeed_messages dont_delete self w))
    = filter (λ e, claimed url batch e = false) (entries url w).
Proof.
  destruct dont_delete.
  - exists []. intros url. apply filter_nothing_claimed.
  - destruct (sqs_msgs self) as [batch|] eqn:Hb.
    + exists batch. intros url. rewrite (succeed_messages_run _ _ _ Hb).
      cbn [world_of snd].
      by rewrite delete_pass_entries, succeed_pass_entries.
    + exists []. intros url. unfold succeed_messages. run. rewrite Hb.
      apply filter_nothing_claimed.
Qed.

Lemma fail_messages_entries reason dont_delete self w :
  ∃ batch, ∀ url,
    entries url (world_of (fail_messages reason dont_delete self w))
    = filter (λ e, claimed url batch e = false) (entries url w).
Proof.
  destruct dont_delete.
  - exists []. intros url. apply filter_nothing_claimed.
  - destruct (sqs_msgs self) as [batch|] eqn:Hb.
    + exists batch. intros url. rewrite (fail_messages_run _ _ _ _ Hb).
      cbn [world_of snd].
      by rewrite delete_pass_entries, fail_pass_entries.
    + exists []. intros url. unfold fail_messages. run. rewrite Hb.
      apply filter_nothing_claimed.
Qed.

(** No method that reads or resolves messages breaks the routing of the
    queues: it holds after [get_messages], after [succeed_messages] and
    [fail_messages] whatever [DontDelete] says and whether a batch is
    held or not, and after [reset]. *)
Theorem receive_and_resolve_keep_routed
    person_name message_type wait max reason dont_delete self w :
  routed w →
  routed (world_of (get_messages person_name message_type wait max self w))
  ∧ routed (world_of (succeed_messages dont_delete self w))
  ∧ routed (world_of (fail_messages reason dont_delete self w))
  ∧ routed (world_of (reset self w)).
Proof.
  intros Hw. split; [|split; [|split]].
  - apply (routed_filter w _ (λ _ _, True)); [|done].
    intros url. rewrite get_messages_entries. symmetry. by apply filter_all.
  - destruct (succeed_messages_entries dont_delete self w) as [batch Hentries].
    by apply (routed_filter w _ _ Hentries).
  - destruct (fail_messages_entries reason dont_delete self w)
      as [batch Hentries].
    by apply (routed_filter w _ _ Hentries).
  - destruct (reset_outcome self w) as (_ & b1 & b2 & _ & _ & _ & Hentries & _).
    by apply (routed_filter w _ _ Hentries).
Qed.

(** ** What reset removes *)

Lemma get_messages_no_filter message_type wait max self w :
  let r := get_messages "" message_type wait (S max) self w in
  sqs_msgs (self_of r) = Some (head_batch (url_for message_type) w)
  ∧ world_of r = fail_pass (head_batch (url_for message_type) w) w.
Proof.
  cbn zeta. rewrite get_messages_run. unfold receive_messages, head_batch.
  destruct (entries (url_for message_type) w) as [|e l]; cbn.
  - split; [done | by destruct w].
  - done.
Qed.

Lemma delete_head_batch url url' w (l : list Entry) :
  filter (λ e, claimed url' (head_batch url w) e = false) l
  = if decide (url = url')
    then match entries url w with
         | [] => l
         | e :: _ => filter (λ e', entry_handle e' ≠ entry_handle e) l
         end
    else l.
Proof.
  unfold head_batch. case_decide as Hu.
  - subst url'. destruct (entries url w) as [|e rest].
    + by apply filter_all.
    + apply list_filter_iff. intros e'. cbn.
      rewrite (bool_decide_eq_true_2 (url = url)) by done. cbn.
      rewrite orb_false_r. rewrite bool_decide_eq_false.
      split; congruence.
  - apply filter_all. intros e'.
    destruct (entries url w) as [|e rest]; [done|]. cbn.
    by rewrite (bool_decide_eq_false_2 (url = url')).
Qed.

(** [reset] returns, and what it takes from each queue is the first
    entry (with every entry that carries the same handle): an empty queue
    stays empty, a queue of one entry is emptied, and of a longer queue
    the tail stays. *)
Theorem reset_removes_heads self w :
  let r := reset self w in
  value_of r = Return tt
  ∧ queue (world_of r) = without_head (queue w)
  ∧ bot_queue (world_of r) = without_head (bot_queue w).
Proof.
  cbn zeta.
  destruct (reset_run self w)
    as (v1 & self1 & b1 & v2 & self2 & b2
        & E1 & Hb1 & _ & E2 & Hb2 & _ & Hreset).
  destruct (get_messages_no_filter "Bot" 0 9 self w) as [Hh1 _].
  rewrite E1 in Hh1. cbn [self_of fst snd] in Hh1.
  change (url_for "Bot") with BotQueueName in Hh1.
  rewrite Hb1 in Hh1. injection Hh1 as ->.
  set (w1 := delete_pass (head_batch BotQueueName w)
               (delete_pass (head_batch BotQueueName w)
                  (fail_pass (head_batch BotQueueName w)
                     (fail_pass (head_batch BotQueueName w) w)))) in *.
  destruct (get_messages_no_filter "Message" 0 9 self1 w1) as [Hh2 _].
  rewrite E2 in Hh2. cbn [self_of fst snd] in Hh2.
  change (url_for "Message") with QueueName in Hh2.
  rewrite Hb2 in Hh2. injection Hh2 as ->.
  assert (∀ url, entries url w1
                 = filter (λ e, claimed url (head_batch BotQueueName w) e
                                = false) (entries url w)) as Hw1.
  { intros url. unfold w1.
    by rewrite !delete_pass_entries, !fail_pass_entries, filter_twice. }
  assert (head_batch QueueName w1 = head_batch QueueName w) as Hsame.
  { unfold head_batch. rewrite Hw1, delete_head_batch.
    by rewrite decide_False. }
  rewrite Hreset. cbn [value_of world_of fst snd]. split; [done|].
  rewrite Hsame.
  assert (∀ url,
    entries url
      (delete_pass (head_batch QueueName w)
         (delete_pass (head_batch QueueName w)
            (fail_pass (head_batch QueueName w)
               (fail_pass (head_batch QueueName w) w1))))
    = filter (λ e, claimed url (head_batch QueueName w) e = false)
        (filter (λ e, claimed url (head_batch BotQueueName w) e = false)
           (entries url w))) as Hfinal.
  { intros url.
    by rewrite !delete_pass_entries, !fail_pass_entries, filter_twice, Hw1. }
  split.
  - change (queue ?x) with (entries QueueName x). rewrite Hfinal.
    rewrite !delete_head_batch.
    rewrite decide_True, decide_False by done.
    unfold without_head. by destruct (entries QueueName w).
  - change (bot_queue ?x) with (entries BotQueueName x). rewrite Hfinal.
    rewrite !delete_head_batch.
    rewrite decide_False, decide_True by done.
    unfold without_head. by destruct (entries BotQueueName w).
Qed.

(** ** Queue names *)

Lemma length_append (s t : string) :
  String.length (s +:+ t) = (String.length s + String.length t)%nat.
Proof.
  induction s as [|a s IH]; [done|]. rewrite append_cons. cbn. by rewrite IH.
Qed.

(** The two queues of a location have different names. *)
Theorem queue_and_bot_queue_differ location_name :
  eqb_str (queue_name_for location_name) (bot_queue_name_for location_name)
  = false.
Proof.
  apply bool_decide_eq_false_2. unfold bot_queue_name_for. intros Heq.
  apply (f_equal String.length) in Heq. rewrite length_append in Heq.
  cbn in Heq. lia.
Qed.

(** The message queue of the location [X-bot] is the bot queue of the
    location [X]: the two locations share that queue. *)
Theorem bot_queue_of_other_location location_name :
  queue_name_for (location_name +:+ "-bot")
  = bot_queue_name_for location_name.
Proof.
  unfold bot_queue_name_for, queue_name_for. by rewrite append_assoc.
Qed.

(** Two managers that are given the same message queue name have been
    given the same location, up to case, and use the same bot queue. *)
Theorem queue_names_injective lower LocationName LocationName' q b b' :
  queue_names lower LocationName = Return (q, b) →
  queue_names lower LocationName' = Return (q, b') →
  lower LocationName = lower LocationName' ∧ b = b'.
Proof.
  unfold queue_names. cbn zeta.
  case_decide; [done|]. case_decide; [done|].
  intros [= <- <-] [= Hq <-].
  change (lower LocationName' = lower LocationName) in Hq.
  by rewrite Hq.
Qed.

(** ** get_queue *)

(** [get_queue] returns [None] exactly when no listed queue has the
    name. *)
Theorem get_queue_none queue_name queues :
  get_queue queue_name queues = None
  ↔ Forall (λ q, Sqs.name q ≠ queue_name) queues.
Proof.
  unfold get_queue, get_queue_url.
  destruct (find (λ q, eqb_str (Sqs.name q) queue_name) queues)
    as [q0|] eqn:Hname; cbn.
  - apply find_some in Hname as [Hin Hq0].
    apply bool_decide_eq_true in Hq0. split.
    + intros Hnone.
      pose proof (find_none _ _ Hnone q0 Hin) as Hurl. cbn in Hurl.
      unfold eqb_str in Hurl. by rewrite bool_decide_eq_true_2 in Hurl.
    + intros Hall. apply list_elem_of_In in Hin.
      by destruct (proj1 (Forall_forall _ _) Hall q0 Hin).
  - split; [|done]. intros _. apply Forall_forall. intros q Hq Heq.
    apply list_elem_of_In in Hq.
    pose proof (find_none _ _ Hname q Hq) as Hfalse. cbn in Hfalse.
    unfold eqb_str in Hfalse. by rewrite bool_decide_eq_true_2 in Hfalse.
Qed.

Lemma NoDup_fmap_eq {A B} (f : A → B) (l : list A) x y :
  NoDup (f <$> l) → x ∈ l → y ∈ l → f x = f y → x = y.
Proof.
  induction l as [|a l IH]; [by intros _ ?%elem_of_nil|].
  rewrite fmap_cons, NoDup_cons.
  intros [Ha Hl] [->|Hx]%elem_of_cons [->|Hy]%elem_of_cons Hf; [done|..].
  - destruct Ha. rewrite Hf. apply list_elem_of_fmap. by exists y.
  - destruct Ha. rewrite <- Hf. apply list_elem_of_fmap. by exists x.
  - by apply IH.
Qed.

(** When the listed queues have distinct urls, the queue [get_queue]
    returns is a listed queue with the name that was asked for. *)
Theorem get_queue_found queue_name queues q :
  NoDup (Sqs.url <$> queues) →
  get_queue queue_name queues = Some q →
  q ∈ queues ∧ Sqs.name q = queue_name.
Proof.
  intros Hurls. unfold get_queue, get_queue_url.
  destruct (find (λ q, eqb_str (Sqs.name q) queue_name) queues)
    as [q0|] eqn:Hname; [|done]. cbn.
  intros Hq. apply find_some in Hname as [Hin0 Hq0].
  apply find_some in Hq as [Hin Hurl].
  apply bool_decide_eq_true in Hq0, Hurl.
  apply list_elem_of_In in Hin0, Hin.
  split; [done|].
  by rewrite (NoDup_fmap_eq Sqs.url queues q q0 Hurls Hin Hin0 Hurl).
Qed.

(** ** The message library *)

(** Round trip of the library: after [update_message] the item of that
    name is the one just written, whatever was stored before, and every
    other name reads as before. *)
Theorem library_get_after_update Name Message Name' table :
  LibraryManager.get_message Name'
    (LibraryManager.update_message Name Message table)
  = if decide (Name = Name')
    then Some {| LibraryManager.name := Name;
                 LibraryManager.message := Message |}
    else LibraryManager.get_message Name' table.
Proof.
  unfold LibraryManager.get_message, LibraryManager.update_message.
  rewrite lookup_insert. by case_decide; subst.
Qed.

(** After [delete_message] the name reads [None], also when nothing was
    stored under it, and every other name reads as before. *)
Theorem library_get_after_delete Name Name' table :
  LibraryManager.get_message Name' (LibraryManager.delete_message Name table)
  = if decide (Name = Name') then None
    else LibraryManager.get_message Name' table.
Proof.
  unfold LibraryManager.get_message, LibraryManager.delete_message.
  rewrite lookup_delete. by case_decide.
Qed.

(** * The further properties on concrete queues *)

Lemma get_messages_only_for_person_witness :
  truthy "alice" = true
  ∧ let r := get_messages "alice" "Message" 0 10 fresh_manager one_for_alice in
    match value_of r with
    | Return (Some msgs) =>
        Forall (λ qm, QueuedMessage.person_name qm = "alice") msgs
    | _ => True
    end
    ∧ (∃ batch, sqs_msgs (self_of r) = Some batch
         ∧ Forall (λ m, PersonName (message_attributes m) = "alice") batch)
    ∧ (∀ p, p ≠ "alice" →
         messages (self_of r) !! p = messages fresh_manager !! p)
    ∧ ∀ uuid p, p ≠ "alice" →
        occurrence (occurrences (world_of r)) uuid p
        = occurrence (occurrences one_for_alice) uuid p.
Proof.
  split; [reflexivity|].
  apply (get_messages_only_for_person "alice" "Message" 0 10 fresh_manager
           one_for_alice).
  reflexivity.
Defined.

Lemma get_messages_nothing_kept_witness :
  Forall (λ m, matches_filter "alice" m = false)
    (receive_messages (url_for "Message") 10 one_for_bob)
  ∧ let r := get_messages "alice" "Message" 0 10 fresh_manager one_for_bob in
    value_of r = Return None
    ∧ sqs_msgs (self_of r) = Some []
    ∧ messages (self_of r) = messages fresh_manager
    ∧ world_of r = one_for_bob.
Proof.
  assert (Forall (λ m, matches_filter "alice" m = false)
            (receive_messages (url_for "Message") 10 one_for_bob)) as Hnone.
  { vm_compute. repeat constructor. }
  split; [exact Hnone|].
  exact (get_messages_nothing_kept "alice" "Message" 0 10 fresh_manager
           one_for_bob Hnone).
Defined.

Lemma get_messages_groups_grow_witness :
  messages holding_hello !! "alice"
  = Some [QueuedMessage_of (message_of QueueName hello_alice)]
  ∧ ∃ l', messages
            (self_of (get_messages "alice" "Message" 0 10 holding_hello
                        two_for_alice))
          !! "alice"
          = Some ([QueuedMessage_of (message_of QueueName hello_alice)] ++ l').
Proof.
  split; [reflexivity|].
  apply (get_messages_groups_grow "alice" "Message" 0 10 holding_hello
           two_for_alice "alice").
  reflexivity.
Defined.

Lemma resolve_without_batch_witness :
  sqs_msgs fresh_manager = None
  ∧ succeed_messages false fresh_manager one_for_alice
    = (Raise (AttributeError "sqs_msgs"), fresh_manager, one_for_alice)
  ∧ fail_messages "Speech failed" false fresh_manager one_for_alice
    = (Raise (AttributeError "sqs_msgs"), fresh_manager, one_for_alice)
  ∧ delete_sqs_msgs fresh_manager one_for_alice
    = (Raise (AttributeError "sqs_msgs"), fresh_manager, one_for_alice)
  ∧ succeed_messages true fresh_manager one_for_alice
    = (Return tt, fresh_manager, one_for_alice)
  ∧ fail_messages "Speech failed" true fresh_manager one_for_alice
    = (Return tt, fresh_manager, one_for_alice).
Proof.
  split; [reflexivity|].
  apply (resolve_without_batch "Speech failed" fresh_manager one_for_alice).
  reflexivity.
Defined.

Lemma succeed_messages_resolves_witness :
  sqs_msgs holding_hello = Some [message_of QueueName hello_alice]
  ∧ let r := succeed_messages false holding_hello one_for_alice in
    value_of r = Return tt
    ∧ Forall (λ m,
          let o := occurrence_for (world_of r) m in
          last_occurrence o = Some (utcnow one_for_alice)
          ∧ in_queue o = false
          ∧ (if NoMoreOccurrences (message_attributes m)
             then expired o = true else True)
          ∧ ¬ in_channel (world_of r) m) [message_of QueueName hello_alice].
Proof.
  split; [reflexivity|].
  apply (succeed_messages_resolves holding_hello one_for_alice
           [message_of QueueName hello_alice]).
  reflexivity.
Defined.

Lemma succeed_messages_frame_witness :
  sqs_msgs holding_hello = Some [message_of QueueName hello_alice]
  ∧ let batch := [message_of QueueName hello_alice] in
    let r := succeed_messages false holding_hello two_for_alice in
    self_of r = holding_hello
    ∧ (∀ uuid person,
          existsb (about uuid person) batch = false →
          occurrence (occurrences (world_of r)) uuid person
          = occurrence (occurrences two_for_alice) uuid person)
    ∧ ∀ url,
        entries url (world_of r)
        = filter (λ e, claimed url batch e = false)
            (entries url two_for_alice).
Proof.
  split; [reflexivity|].
  apply (succeed_messages_frame holding_hello two_for_alice
           [message_of QueueName hello_alice]).
  reflexivity.
Defined.

Lemma fail_messages_frame_witness :
  sqs_msgs holding_hello = Some [message_of QueueName hello_alice]
  ∧ let batch := [message_of QueueName hello_alice] in
    let r := fail_messages "Speech failed" false holding_hello two_for_alice in
    self_of r = holding_hello
    ∧ (∀ uuid person,
          existsb (about uuid person) batch = false →
          occurrence (occurrences (world_of r)) uuid person
          = occurrence (occurrences two_for_alice) uuid person)
    ∧ ∀ url,
        entries url (world_of r)
        = filter (λ e, claimed url batch e = false)
            (entries url two_for_alice).
Proof.
  split; [reflexivity|].
  apply (fail_messages_frame "Speech failed" holding_hello two_for_alice
           [message_of QueueName hello_alice]).
  reflexivity.
Defined.

Lemma fail_messages_twice_witness :
  sqs_msgs holding_hello = Some [message_of QueueName hello_alice]
  ∧ let r := fail_messages "Speech failed" false holding_hello two_for_alice in
    fail_messages "Speech failed" false (self_of r) (world_of r) = r.
Proof.
  split; [reflexivity|].
  apply (fail_messages_twice "Speech failed" holding_hello two_for_alice
           [message_of QueueName hello_alice]).
  reflexivity.
Defined.

Lemma succeed_messages_same_clock_witness :
  sqs_msgs holding_hello = Some [message_of QueueName hello_alice]
  ∧ let r := succeed_messages false holding_hello two_for_alice in
    succeed_messages false (self_of r) (world_of r) = r.
Proof.
  split; [reflexivity|].
  apply (succeed_messages_same_clock holding_hello two_for_alice
           [message_of QueueName hello_alice]).
  reflexivity.
Defined.

Lemma write_speech_once_witness :
  truthy "alice" = true
  ∧ value_of (write_speech no_tokens false "alice" fresh_manager two_for_alice)
    = match List.find (matches_filter "alice")
              (receive_messages QueueName 10 two_for_alice) with
      | None => Return (None, None)
      | Some m =>
          if is_expired (utcnow two_for_alice) (QueuedMessage_of m)
          then Return (None, None)
          else Return
                 (Some (Voice (message_attributes m)),
                  Some (no_tokens "alice"
                          ("<speak><p>" +:+ sqs_body m +:+ "</p></speak>")))
      end.
Proof.
  split; [reflexivity|].
  apply (write_speech_once no_tokens false "alice" two_for_alice).
  reflexivity.
Defined.

Lemma write_speech_without_person_witness :
  (queue one_for_bob = [hello_bob]
   ∧ PersonName (entry_attributes hello_bob) ≠ "")
  ∧ value_of (write_speech no_tokens false "" fresh_manager one_for_bob)
    = Raise (KeyError "").
Proof.
  split; [split; [reflexivity | discriminate]|].
  apply (write_speech_without_person no_tokens false one_for_bob hello_bob []);
    [reflexivity | discriminate].
Defined.

Lemma publish_then_receive_witness :
  let kwargs := hello_request (Some "greeter") in
  (truthy (default "" (Kw.PersonName kwargs)) = true
   ∧ truthy (default "fresh" (Kw.UUID kwargs)) = true
   ∧ truthy (default "" (Kw.Body kwargs)) = true
   ∧ Kw.unexpected kwargs = []
   ∧ entries BotQueueName empty_world = [])
  ∧ value_of
      ((publish_message no_windows "fresh" kwargs ;;
        get_messages "alice" "Bot" 0 10) fresh_manager empty_world)
    = Return (Some [requested "fresh" kwargs]).
Proof.
  split; [repeat split|].
  apply (publish_then_receive no_windows "fresh"
           (hello_request (Some "greeter")) fresh_manager empty_world);
    reflexivity.
Defined.

Lemma publish_message_keeps_routed_witness :
  routed empty_world
  ∧ routed (world_of (publish_message no_windows "fresh"
                        (hello_request (Some "greeter")) fresh_manager
                        empty_world)).
Proof.
  assert (routed empty_world) as Hw by (split; constructor).
  split; [exact Hw|].
  exact (publish_message_keeps_routed no_windows "fresh"
           (hello_request (Some "greeter")) fresh_manager empty_world Hw).
Defined.

Lemma receive_and_resolve_keep_routed_witness :
  routed two_for_alice
  ∧ routed (world_of (get_messages "alice" "Message" 0 10 holding_hello
                        two_for_alice))
  ∧ routed (world_of (succeed_messages false holding_hello two_for_alice))
  ∧ routed (world_of (fail_messages "Speech failed" false holding_hello
                        two_for_alice))
  ∧ routed (world_of (reset holding_hello two_for_alice)).
Proof.
  assert (routed two_for_alice) as Hw by (split; repeat constructor).
  split; [exact Hw|].
  exact (receive_and_resolve_keep_routed "alice" "Message" 0 10
           "Speech failed" false holding_hello two_for_alice Hw).
Defined.

Lemma queue_names_injective_witness :
  (queue_names as_given "home"
   = Return ("pollexy-inbox-home", "pollexy-inbox-home-bot")
   ∧ queue_names as_given "home"
     = Return ("pollexy-inbox-home", "pollexy-inbox-home-bot"))
  ∧ as_given "home" = as_given "home"
  ∧ "pollexy-inbox-home-bot" = "pollexy-inbox-home-bot".
Proof.
  split; [split; reflexivity|].
  apply (queue_names_injective as_given "home" "home" "pollexy-inbox-home");
    reflexivity.
Defined.

Lemma get_queue_found_witness :
  (NoDup (Sqs.url <$> listed_queues)
   ∧ get_queue "pollexy-inbox-home-bot" listed_queues
     = Some {| Sqs.name := "pollexy-inbox-home-bot";
               Sqs.url := "https://sqs/pollexy-inbox-home-bot" |})
  ∧ {| Sqs.name := "pollexy-inbox-home-bot";
       Sqs.url := "https://sqs/pollexy-inbox-home-bot" |} ∈ listed_queues
  ∧ "pollexy-inbox-home-bot" = "pollexy-inbox-home-bot".
Proof.
  assert (NoDup (Sqs.url <$> listed_queues)) as Hurls.
  { apply (bool_decide_unpack _). vm_compute. exact I. }
  split; [split; [exact Hurls | reflexivity]|].
  exact (get_queue_found "pollexy-inbox-home-bot" listed_queues _ Hurls
           eq_refl).
Defined.
